(** * tsipaddr: a shallow embedding of [src/address.ts]

    The development follows the layout of the TypeScript sources:

    - [Js]        the ECMAScript built-ins the code calls ([split], [join],
                  [parseInt], [Number.prototype.toString], [padStart],
                  [slice], [Array(n).fill], ...);
    - [Constants] and [Arrays]: the two modules [address.ts] imports
                  ([./constants] and [./arrays]);
    - [Address], [Address4], [Address6]: the three classes of [address.ts].

    JavaScript strings are modelled by [string] (sequences of 8-bit
    characters), integral JavaScript numbers by [Z], [NaN] by [None], arrays
    of numbers by [list Z], and a [throw] by the [Throw] constructor of
    [result], which records the class of the thrown error. *)

From Stdlib Require Import ZArith QArith Qpower Lia List Bool Ascii String.
Import ListNotations.

Local Open Scope Z_scope.

(** ** Exceptions *)

(** The classes of errors a constructor call can end with:
    [AddressValueError] comes from [./exceptions], [RangeError] is the
    built-in error of [Array(n)] for a negative [n], and [InvalidByte] is the
    failure of the byte container's own constructor. *)
Inductive error : Type :=
| AddressValueError
| RangeError
| InvalidByte.

Inductive result (A : Type) : Type :=
| Ok (a : A)
| Throw (e : error).

Arguments Ok {A} a.
Arguments Throw {A} e.

Definition bind {A B : Type} (r : result A) (k : A -> result B) : result B :=
  match r with
  | Ok a => k a
  | Throw e => Throw e
  end.

Notation "x <- r ;; k" := (bind r (fun x => k))
  (at level 61, r at next level, right associativity).

(** ** ECMAScript built-ins *)

Module Js.

(** [s.split(sep)] for a one-character separator: never the empty array,
    [split sep ""] is the array holding the empty string. *)
Fixpoint split (sep : ascii) (s : string) : list string :=
  match s with
  | EmptyString => [EmptyString]
  | String c r =>
      if Ascii.eqb c sep then EmptyString :: split sep r
      else match split sep r with
           | [] => [String c EmptyString]
           | h :: t => String c h :: t
           end
  end.

(** [parts.join(sep)] on an array of strings. *)
Fixpoint join (sep : string) (parts : list string) : string :=
  match parts with
  | [] => EmptyString
  | [x] => x
  | x :: r => (x ++ sep ++ join sep r)%string
  end.

(** [s.includes(c)] for a one-character needle. *)
Fixpoint includes (c : ascii) (s : string) : bool :=
  match s with
  | EmptyString => false
  | String d r => Ascii.eqb d c || includes c r
  end.

(** [s.slice(0, n)] and [s.slice(n)] for [0 <= n]. *)
Fixpoint sliceTo (n : nat) (s : string) : string :=
  match n, s with
  | O, _ => EmptyString
  | S _, EmptyString => EmptyString
  | S m, String c r => String c (sliceTo m r)
  end.

Fixpoint sliceFrom (n : nat) (s : string) : string :=
  match n, s with
  | O, _ => s
  | S _, EmptyString => EmptyString
  | S m, String _ r => sliceFrom m r
  end.

(** [Array(n).fill(x).join("")] is [repeatChar]; [Array(n).fill(x)] on
    numbers is [arrayFill], which throws [RangeError] for a negative [n]. *)
Fixpoint repeatChar (c : ascii) (n : nat) : string :=
  match n with
  | O => EmptyString
  | S m => String c (repeatChar c m)
  end.

Definition arrayFill (n : Z) (x : Z) : result (list Z) :=
  if n <? 0 then Throw RangeError else Ok (repeat x (Z.to_nat n)).

(** [s.padStart(n, "0")]. *)
Definition padStart (n : nat) (c : ascii) (s : string) : string :=
  (repeatChar c (n - String.length s) ++ s)%string.

(** [c.toLowerCase()] on the 8-bit characters: the ASCII capitals and the
    Latin-1 capitals (all but the multiplication sign) move up by 32. *)
Definition lowerChar (c : ascii) : ascii :=
  let n := nat_of_ascii c in
  if ((65 <=? n) && (n <=? 90))%nat then ascii_of_nat (n + 32)
  else if ((192 <=? n) && (n <=? 222) && negb (n =? 215))%nat
       then ascii_of_nat (n + 32)
  else c.

Fixpoint toLowerCase (s : string) : string :=
  match s with
  | EmptyString => EmptyString
  | String c r => String (lowerChar c) (toLowerCase r)
  end.

(** The value of a character as a digit of [parseInt], in any radix up to
    16, and the digit [Number.prototype.toString] writes for a value. *)
Definition digitValue (c : ascii) : option Z :=
  let n := Z.of_nat (nat_of_ascii c) in
  if (48 <=? n) && (n <=? 57) then Some (n - 48)
  else if (97 <=? n) && (n <=? 102) then Some (n - 87)
  else if (65 <=? n) && (n <=? 70) then Some (n - 55)
  else None.

Definition digitChar (d : Z) : ascii :=
  if d <? 10 then ascii_of_nat (Z.to_nat (d + 48))
  else ascii_of_nat (Z.to_nat (d + 87)).

Definition isDigitIn (radix : Z) (c : ascii) : bool :=
  match digitValue c with
  | Some d => d <? radix
  | None => false
  end.

(** [parseInt(s, radix)]: the value of the longest prefix of digits of the
    radix, [NaN] (here [None]) when the string does not start with one.
    Leading white space and a sign are not modelled: every call in
    [address.ts] comes after the validators accepted the string. *)
Fixpoint parseDigits (radix acc : Z) (s : string) : Z :=
  match s with
  | EmptyString => acc
  | String c r =>
      match digitValue c with
      | Some d => if d <? radix then parseDigits radix (acc * radix + d) r
                  else acc
      | None => acc
      end
  end.

Definition parseInt (s : string) (radix : Z) : option Z :=
  match s with
  | EmptyString => None
  | String c _ => if isDigitIn radix c then Some (parseDigits radix 0 s)
                  else None
  end.

(** [n.toString(radix)] for an integer [n]: the digits are produced from
    the least significant one, [fuel] bounds their number. *)
Fixpoint toDigits (fuel : nat) (radix n : Z) (acc : string) : string :=
  match fuel with
  | O => acc
  | S f =>
      let acc' := String (digitChar (n mod radix)) acc in
      if n / radix =? 0 then acc' else toDigits f radix (n / radix) acc'
  end.

Definition fuelFor (n : Z) : nat := S (Z.to_nat (Z.log2 n)).

Definition numberToString (n : Z) (radix : Z) : string :=
  if n <? 0 then String "-"%char (toDigits (fuelFor (- n)) radix (- n) EmptyString)
  else toDigits (fuelFor n) radix n EmptyString.

(** [octets.join(sep)] on an array of numbers: each one is written in
    decimal. *)
Definition joinNumbers (sep : string) (l : list Z) : string :=
  join sep (map (fun n => numberToString n 10) l).

(** [s.replace(/^0{1,3}/, "")]: the greedy match takes up to three leading
    zeros away. *)
Fixpoint stripZeros (n : nat) (s : string) : string :=
  match n, s with
  | S m, String c r => if Ascii.eqb c "0"%char then stripZeros m r else s
  | _, _ => s
  end.

Definition replaceLeadingZeros (s : string) : string := stripZeros 3 s.

End Js.

(** ** [./constants] *)

Module Constants.

(** Modelled from the spec: [constants.ts] is not in the sources; the
    width of an IPv4 address is 4 bytes (sections 3 and 4.4). *)
Definition IPV4_BYTES : Z := 4.

(** Modelled from the spec: [constants.ts] is not in the sources; the
    width of an IPv6 address is 16 bytes (sections 3 and 4.5). *)
Definition IPV6_BYTES : Z := 16.

(** Modelled from the spec: [constants.ts] is not in the sources; a group
    of an IPv6 string is "a hexadecimal-digit string of length <= 4"
    (section 4.5). *)
Definition IPV6_SEGMENT_LENGTH : Z := 4.

End Constants.

(** ** [./arrays] *)

Module Arrays.

(** Modelled from the spec: [arrays.ts] (the validators, the [comparison]
    enumeration and the [ByteContainer] class) is not in the sources; the
    definitions below follow sections 4.1 and 4.2.  The earlier revision of
    [address.ts] that the sources keep has the two checks of the IPv4 parser
    inline, [DECIMAL_DIGITS.includes(ch)] on every character and
    [octet >= 0 && octet <= 255], as the validators below have them. *)
Inductive comparison : Type := Lesser | Equal | Greater.

(** [a === b] on the values of the enumeration. *)
Definition comparison_eqb (a b : comparison) : bool :=
  match a, b with
  | Lesser, Lesser | Equal, Equal | Greater, Greater => true
  | _, _ => false
  end.

(** Modelled from the spec: "[isValidByte(n)]: true iff integer and
    0 <= n <= 255"; [None] is [NaN]. *)
Definition isValidByte (n : option Z) : bool :=
  match n with
  | Some z => (0 <=? z) && (z <=? 255)
  | None => false
  end.

(** Modelled from the spec: "[isValidByteArray(seq)]: true iff every
    element satisfies [isValidByte]". *)
Definition isValidByteArray (l : list Z) : bool :=
  forallb (fun z => isValidByte (Some z)) l.

(** Modelled from the spec: "true iff every character of [s] is in the
    respective digit alphabet (hexadecimal case-insensitive); empty string is
    not a valid digit string". *)
Fixpoint allDigits (radix : Z) (s : string) : bool :=
  match s with
  | EmptyString => true
  | String c r => Js.isDigitIn radix c && allDigits radix r
  end.

(** Modelled from the spec: [isDecimalString(s)], every character a
    decimal digit and [s] not empty. *)
Definition isDecimalString (s : string) : bool :=
  match s with
  | EmptyString => false
  | _ => allDigits 10 s
  end.

(** Modelled from the spec: [isHexadecimalString(s)], every character a
    hexadecimal digit of either case and [s] not empty. *)
Definition isHexadecimalString (s : string) : bool :=
  match s with
  | EmptyString => false
  | _ => allDigits 16 s
  end.

(** Modelled from the spec: the container is an "ordered sequence of N
    unsigned bytes"; its constructor "fails with [InvalidByte] if any element
    is outside [0,255]" and leaves the width to the caller. *)
Record ByteContainer : Type := mkByteContainer { bytes : list Z }.

(** Modelled from the spec: [new ByteContainer(l)], which "only enforces
    byte range". *)
Definition newByteContainer (l : list Z) : result ByteContainer :=
  if isValidByteArray l then Ok (mkByteContainer l) else Throw InvalidByte.

(** Modelled from the spec: "[compareWith]: lexicographic (most-significant
    byte first) three-way comparison".  The spec leaves sequences of
    different lengths open; here the shorter one is the lesser when it is a
    prefix of the other. *)
Fixpoint compareBytes (a b : list Z) : comparison :=
  match a, b with
  | [], [] => Equal
  | [], _ :: _ => Lesser
  | _ :: _, [] => Greater
  | x :: a', y :: b' =>
      if x <? y then Lesser
      else if y <? x then Greater
      else compareBytes a' b'
  end.

(** Modelled from the spec: [compareWith(other)] compares the bytes of the
    container with the other sequence. *)
Definition compareWith (c : ByteContainer) (other : list Z) : comparison :=
  compareBytes (bytes c) other.

(** Modelled from the spec: "[add(amount)]: [amount] is a sequence of at
    most N integers, right-aligned.  Performs byte-wise addition from
    least-significant byte with carry propagation leftward.  Carry that
    propagates past the most-significant byte is silently discarded".
    [addLsb] works on the two sequences reversed (least significant byte
    first) and stops at the width of the container. *)
Fixpoint addLsb (a amount : list Z) (carry : Z) : list Z :=
  match a with
  | [] => []
  | x :: a' =>
      let y := match amount with [] => 0 | y :: _ => y end in
      let s := x + y + carry in
      (s mod 256) :: addLsb a' (tl amount) (s / 256)
  end.

(** Modelled from the spec: [add(amount)] returns a new container, the
    amount right-aligned on the bytes of the receiver. *)
Definition add (c : ByteContainer) (amount : list Z) : ByteContainer :=
  mkByteContainer (rev (addLsb (rev (bytes c)) (rev amount) 0)).

(** Modelled from the spec: "[subtract(amount)]: symmetric borrow
    propagation; borrow past the most-significant byte also wraps
    silently". *)
Fixpoint subLsb (a amount : list Z) (borrow : Z) : list Z :=
  match a with
  | [] => []
  | x :: a' =>
      let y := match amount with [] => 0 | y :: _ => y end in
      let s := x - y - borrow in
      (s mod 256) :: subLsb a' (tl amount) (if s <? 0 then 1 else 0)
  end.

(** Modelled from the spec: [subtract(amount)] returns a new container,
    the amount right-aligned on the bytes of the receiver. *)
Definition subtract (c : ByteContainer) (amount : list Z) : ByteContainer :=
  mkByteContainer (rev (subLsb (rev (bytes c)) (rev amount) 0)).

End Arrays.

(** ** [address.ts] *)

Import Constants Arrays.

(** What a constructor of [Address4] or [Address6] accepts:
    [string | ReadonlyArray<number> | ByteContainer]. *)
Inductive input : Type :=
| InString (s : string)
| InArray (a : list Z)
| InContainer (c : ByteContainer).

(** [array.reduce(f, init)] with the index passed to the callback. *)
Fixpoint reduceFrom {A B : Type} (f : B -> A -> Z -> B) (l : list A)
    (index : Z) (total : B) : B :=
  match l with
  | [] => total
  | x :: r => reduceFrom f r (index + 1) (f total x index)
  end.

Definition reduce {A B : Type} (f : B -> A -> Z -> B) (l : list A) (init : B) : B :=
  reduceFrom f l 0 init.

(** [function hexOctetToString(octet)]. *)
Definition hexOctetToString (octet : Z) : string :=
  Js.padStart 2 "0"%char (Js.numberToString octet 16).

(** *** [abstract class Address]

    An address owns one byte container; the cached fields ([_decimal],
    [_ipString], [_fullString], [_rfc5952]) hold values that are functions
    of the container alone and are left out. *)
Module Address.

Record t : Type := mk { byteContainer : ByteContainer }.

Definition getOctets (a : t) : list Z := bytes (byteContainer a).

(** [getDecimal]: the native number is a rational here; [2 ** e] is
    [Qpower], which takes the inverse for a negative exponent as [**]
    does. *)
Definition getDecimal (a : t) : Q :=
  reduce
    (fun (total : Q) (octet : Z) (index : Z) =>
       (total + inject_Z octet * Qpower 2 (8 * (4 - index - 1)))%Q)
    (getOctets a) 0%Q.

Definition eq (a other : t) : bool :=
  comparison_eqb (compareWith (byteContainer a) (getOctets other)) Equal.

Definition ne (a other : t) : bool :=
  negb (comparison_eqb (compareWith (byteContainer a) (getOctets other)) Equal).

Definition gt (a other : t) : bool :=
  comparison_eqb (compareWith (byteContainer a) (getOctets other)) Greater.

Definition lt (a other : t) : bool :=
  comparison_eqb (compareWith (byteContainer a) (getOctets other)) Lesser.

Definition ge (a other : t) : bool :=
  let result := compareWith (byteContainer a) (getOctets other) in
  comparison_eqb result Greater || comparison_eqb result Equal.

Definition le (a other : t) : bool :=
  let result := compareWith (byteContainer a) (getOctets other) in
  comparison_eqb result Lesser || comparison_eqb result Equal.

(** [add] and [substract] call the constructor of the receiver's class on
    a container, the branch of the constructors that only stores it. *)
Definition add (a : t) (amount : list Z) : t :=
  mk (Arrays.add (byteContainer a) amount).

Definition substract (a : t) (amount : list Z) : t :=
  mk (Arrays.subtract (byteContainer a) amount).

End Address.

(** [addressSplitted.map(f)] with a callback that may throw: the first
    throw ends the call. *)
Fixpoint mapM {A B : Type} (f : A -> result B) (l : list A) : result (list B) :=
  match l with
  | [] => Ok []
  | x :: r => y <- f x ;; ys <- mapM f r ;; Ok (y :: ys)
  end.

Definition len {A : Type} (l : list A) : Z := Z.of_nat (List.length l).
Definition strlen (s : string) : Z := Z.of_nat (String.length s).

(** *** [class Address4] *)
Module Address4.

(** The callback of [addressSplitted.map]; its last branch is never
    taken, [isValidByte] being false on [NaN]. *)
Definition parseOctet (octet : string) : result Z :=
  if negb (isDecimalString octet) then Throw AddressValueError
  else
    let numberOctet := Js.parseInt octet 10 in
    if negb (isValidByte numberOctet) then Throw AddressValueError
    else match numberOctet with
         | Some n => Ok n
         | None => Throw AddressValueError
         end.

Definition new (i : input) : result Address.t :=
  match i with
  | InContainer c => Ok (Address.mk c)
  | InArray a =>
      if len a >? IPV4_BYTES then Throw AddressValueError
      else if negb (isValidByteArray a) then Throw AddressValueError
      else
        padded <- (if len a <? IPV4_BYTES
                   then fill <- Js.arrayFill (IPV4_BYTES - len a) 0 ;; Ok (fill ++ a)
                   else Ok a) ;;
        c <- newByteContainer padded ;;
        Ok (Address.mk c)
  | InString s =>
      let addressSplitted := Js.split "."%char s in
      if negb (len addressSplitted =? IPV4_BYTES) then Throw AddressValueError
      else
        l <- mapM parseOctet addressSplitted ;;
        octets <- newByteContainer l ;;
        Ok (Address.mk octets)
  end.

Definition getIpString (a : Address.t) : string :=
  Js.joinNumbers "." (Address.getOctets a).

End Address4.

(** *** [class Address6] *)
Module Address6.

(** The two variables the parsing loop of the constructor updates. *)
Record loopState : Type := mkLoop {
  shortenedIndex : option Z;
  octets : list Z
}.

(** The body of [for (const tuple of addressSplitted.entries())]: [n] is
    [addressSplitted.length]; [continue] is the [Ok] of the state. *)
Definition parseItem (n : Z) (st : loopState) (index : Z) (item : string)
  : result loopState :=
  if String.eqb item "" then
    match shortenedIndex st with
    | None => Ok (mkLoop (Some index) (octets st))
    | Some si =>
        if (si =? 0) && (index =? 1) then Ok st
        else if (si =? n - 2) && (index =? n - 1) then Ok st
        else Throw AddressValueError
    end
  else if Js.includes "."%char item then
    if negb (index =? n - 1) then Throw AddressValueError
    else
      a4 <- Address4.new (InString item) ;;
      Ok (mkLoop (shortenedIndex st) (octets st ++ Address.getOctets a4))
  else if strlen item >? IPV6_SEGMENT_LENGTH then Throw AddressValueError
  else
    let item :=
      if strlen item <? IPV6_SEGMENT_LENGTH
      then (Js.repeatChar "0"%char (Z.to_nat (IPV6_SEGMENT_LENGTH - strlen item))
            ++ item)%string
      else item in
    let firstOctet :=
      Js.toLowerCase (Js.sliceTo (Z.to_nat (IPV6_SEGMENT_LENGTH / 2)) item) in
    let secondOctet :=
      Js.toLowerCase (Js.sliceFrom (Z.to_nat (IPV6_SEGMENT_LENGTH / 2)) item) in
    if negb (isHexadecimalString firstOctet) then Throw AddressValueError
    else if negb (isHexadecimalString secondOctet) then Throw AddressValueError
    else
      match Js.parseInt firstOctet 16, Js.parseInt secondOctet 16 with
      | Some o1, Some o2 => Ok (mkLoop (shortenedIndex st) (octets st ++ [o1; o2]))
      | _, _ => Throw AddressValueError
      end.

Fixpoint parseLoop (n : Z) (items : list string) (index : Z) (st : loopState)
  : result loopState :=
  match items with
  | [] => Ok st
  | item :: rest =>
      st' <- parseItem n st index item ;;
      parseLoop n rest (index + 1) st'
  end.

(** [if (shortenedIndex !== null) { ... }]: the zero bytes are spliced in
    at twice the recorded index. *)
Definition expand (st : loopState) : result (list Z) :=
  match shortenedIndex st with
  | None => Ok (octets st)
  | Some si =>
      let shortenedIndex := si * 2 in
      fill <- Js.arrayFill (IPV6_BYTES - len (octets st)) 0 ;;
      Ok (firstn (Z.to_nat shortenedIndex) (octets st)
          ++ fill
          ++ skipn (Z.to_nat shortenedIndex) (octets st))
  end.

Definition new (i : input) : result Address.t :=
  match i with
  | InContainer c => Ok (Address.mk c)
  | InArray a =>
      if len a >? IPV6_BYTES then Throw AddressValueError
      else if negb (isValidByteArray a) then Throw AddressValueError
      else
        padded <- (if len a <? IPV6_BYTES
                   then fill <- Js.arrayFill (IPV6_BYTES - len a) 0 ;; Ok (fill ++ a)
                   else Ok a) ;;
        c <- newByteContainer padded ;;
        Ok (Address.mk c)
  | InString s =>
      let addressSplitted := Js.split ":"%char s in
      st <- parseLoop (len addressSplitted) addressSplitted 0 (mkLoop None []) ;;
      octets <- expand st ;;
      if negb (len octets =? IPV6_BYTES) then Throw AddressValueError
      else
        c <- newByteContainer octets ;;
        Ok (Address.mk c)
  end.

(** [getOctetsPair]: [total.push([])] on even indices, then
    [total[total.length - 1].push(current)]. *)
Fixpoint pushLast (total : list (list Z)) (current : Z) : list (list Z) :=
  match total with
  | [] => []
  | [l] => [l ++ [current]]
  | l :: r => l :: pushLast r current
  end.

Definition getOctetsPair (a : Address.t) : list (list Z) :=
  reduce
    (fun (total : list (list Z)) (current : Z) (index : Z) =>
       let total := if index mod 2 =? 0 then total ++ [[]] else total in
       pushLast total current)
    (Address.getOctets a) [].

Definition getFullString (a : Address.t) : string :=
  Js.join ":" (map (fun item => Js.join "" (map hexOctetToString item))
                   (getOctetsPair a)).

(** The enumeration and the interface local to [calculateRfc5952]. *)
Inductive ParseState : Type := OctetBegin | Shorten | NotShorten.

Record ShortenT : Type := mkShorten {
  sBegin : Z;
  sEnd : Z;
  sLength : Z
}.

Record scanState : Type := mkScan {
  state : ParseState;
  shortenBegin : Z;
  shortens : list ShortenT
}.

(** One turn of the [for] loop over the characters of [output]. *)
Definition scanStep (st : scanState) (index : Z) (ch : ascii) : scanState :=
  match state st with
  | OctetBegin =>
      if Ascii.eqb ch "0"%char then mkScan Shorten index (shortens st)
      else mkScan NotShorten (shortenBegin st) (shortens st)
  | Shorten =>
      if Ascii.eqb ch "0"%char || Ascii.eqb ch ":"%char then st
      else
        let shortenLength := index - shortenBegin st in
        let shortens' :=
          if shortenLength >? 2
          then shortens st ++ [mkShorten (shortenBegin st) index shortenLength]
          else shortens st in
        mkScan NotShorten (shortenBegin st) shortens'
  | NotShorten =>
      if Ascii.eqb ch ":"%char then mkScan OctetBegin (shortenBegin st) (shortens st)
      else st
  end.

Fixpoint scan (chars : string) (index : Z) (st : scanState) : scanState :=
  match chars with
  | EmptyString => st
  | String ch rest => scan rest (index + 1) (scanStep st index ch)
  end.

(** [if (state === ParseState.Shorten) { ... }] after the loop. *)
Definition scanEnd (outputLength : Z) (st : scanState) : list ShortenT :=
  match state st with
  | Shorten =>
      let shortenLength := outputLength - shortenBegin st in
      if shortenLength >? 2
      then shortens st ++ [mkShorten (shortenBegin st) outputLength shortenLength]
      else shortens st
  | _ => shortens st
  end.

(** The leading-zero-stripped groups, before they are joined. *)
Definition strippedGroups (a : Address.t) : list string :=
  map (fun item => Js.replaceLeadingZeros (Js.join "" (map hexOctetToString item)))
      (getOctetsPair a).

Definition pickBest (acc current : ShortenT) : ShortenT :=
  if sLength acc <? sLength current then current else acc.

Definition calculateRfc5952 (a : Address.t) : string :=
  let output := Js.join ":" (strippedGroups a) in
  let outputLength := strlen output in
  let shortens := scanEnd outputLength (scan output 0 (mkScan OctetBegin 0 [])) in
  match shortens with
  | [] => output
  | first :: others =>
      let bestShorten := fold_left pickBest others first in
      if sBegin bestShorten =? 0
      then ("::" ++ Js.sliceFrom (Z.to_nat (sEnd bestShorten)) output)%string
      else (Js.sliceTo (Z.to_nat (sBegin bestShorten)) output ++ ":"
            ++ Js.sliceFrom (Z.to_nat (sEnd bestShorten)) output)%string
  end.

Definition getRfc5952 (a : Address.t) : string := calculateRfc5952 a.

Definition getIpString (a : Address.t) : string := getRfc5952 a.

End Address6.

(** ** Notions the properties are stated with *)

(** The octets of the address a constructor call produced, and a string
    form of it; a [throw] of the constructor goes through. *)
Definition octetsOf (r : result Address.t) : result (list Z) :=
  a <- r ;; Ok (Address.getOctets a).

Definition renderWith (f : Address.t -> string) (r : result Address.t)
  : result string :=
  a <- r ;; Ok (f a).

(** The big-endian value of a byte sequence,
    [Sigma octet[i] * 256^(N-1-i)]. *)
Definition numericValue (l : list Z) : Z :=
  fold_left (fun acc x => acc * 256 + x) l 0.

(** An address of width [n]: [n] octets, each one a byte. *)
Definition wellFormed (n : nat) (a : Address.t) : Prop :=
  List.length (Address.getOctets a) = n /\
  isValidByteArray (Address.getOctets a) = true.

(** The callback [getDecimal] passes to [reduce]. *)
Definition decimalStep (total : Q) (octet : Z) (index : Z) : Q :=
  (total + inject_Z octet * Qpower 2 (8 * (4 - index - 1)))%Q.

(** Exactly one of three booleans is [true]. *)
Definition exactlyOne (a b c : bool) : Prop :=
  (a = true /\ b = false /\ c = false) \/
  (a = false /\ b = true /\ c = false) \/
  (a = false /\ b = false /\ c = true).

(** A part of a dotted quad has a leading zero when it starts with ["0"]
    and has more than one character. *)
Definition hasLeadingZero (p : string) : bool :=
  match p with
  | String c (String _ _) => Ascii.eqb c "0"%char
  | _ => false
  end.

(** A valid dotted-quad string with no leading zero in any octet: the
    split on ["."] has exactly four parts, each a decimal-digit string whose
    value is at most 255 and which has no leading zero. *)
Definition canonicalDottedQuad (s : string) : Prop :=
  let parts := Js.split "."%char s in
  List.length parts = 4%nat /\
  Forall (fun p => isDecimalString p = true /\
                   Js.parseDigits 10 0 p <= 255 /\
                   hasLeadingZero p = false) parts.

(** *** Runs of zero groups in the RFC 5952 form *)

(** A group of the stripped form is the zero group when it is ["0"]. *)
Definition isZeroGroup (g : string) : bool := String.eqb g "0".

(** The shape of a stripped group: no colon, not empty, and a leading
    ["0"] only when the group is ["0"]. *)
Definition groupOk (g : string) : bool :=
  match g with
  | EmptyString => false
  | String c r =>
      negb (Js.includes ":"%char g)
      && (negb (Ascii.eqb c "0"%char) || String.eqb r "")
  end.

(** A maximal run of zero groups: the index of its first group, the number
    of its groups, and whether it reaches the end of the address. *)
Record run : Type := mkRun { rStart : nat; rCount : nat; rTrailing : bool }.

(** The number of characters of a run in the joined form: a zero and a
    colon for each group, without the colon for the last group of the
    address. *)
Definition runLength (r : run) : Z :=
  2 * Z.of_nat (rCount r) - (if rTrailing r then 1 else 0).

Definition emitRun (cur : option nat) (i : nat) (trailing : bool) : list run :=
  match cur with
  | None => []
  | Some b =>
      let r := mkRun b (i - b) trailing in
      if runLength r >? 2 then [r] else []
  end.

(** The maximal runs of zero groups that the scan records, from the flags
    "group is zero" of the groups from index [i] on; [cur] is the start of
    the run the groups before [i] end with. *)
Fixpoint groupRuns (zs : list bool) (i : nat) (cur : option nat) : list run :=
  match zs with
  | [] => emitRun cur i true
  | true :: rest =>
      groupRuns rest (S i) (Some (match cur with Some b => b | None => i end))
  | false :: rest => emitRun cur i false ++ groupRuns rest (S i) None
  end.

(** The index, in the joined form, of the first character of group [i]. *)
Fixpoint offset (gs : list string) (i : nat) {struct i} : nat :=
  match i with
  | O => 0
  | S j =>
      match gs with
      | [] => 0
      | g :: r => String.length g + 1 + offset r j
      end
  end.

Definition toShorten (gs : list string) (r : run) : Address6.ShortenT :=
  Address6.mkShorten
    (Z.of_nat (offset gs (rStart r)))
    (if rTrailing r then strlen (Js.join ":" gs)
     else Z.of_nat (offset gs (rStart r + rCount r)))
    (runLength r).

Definition pickRun (acc current : run) : run :=
  if runLength acc <? runLength current then current else acc.

Definition bestRun (zs : list bool) : option run :=
  match groupRuns zs 0 None with
  | [] => None
  | first :: others => Some (fold_left pickRun others first)
  end.

(** The state of the scan at the first character of group [i] of [gs],
    when [cur] is the start of the run of zero groups that ends just before
    group [i]. *)
Definition stateMatches (gs : list string) (st : Address6.scanState)
    (cur : option nat) (i : nat) : Prop :=
  match cur with
  | None => Address6.state st = Address6.OctetBegin
  | Some b =>
      Address6.state st = Address6.Shorten
      /\ Address6.shortenBegin st = Z.of_nat (offset gs b)
      /\ (b < i)%nat
      /\ Z.of_nat (offset gs i) - Z.of_nat (offset gs b)
         = 2 * (Z.of_nat i - Z.of_nat b)
  end.

(** The last step of [calculateRfc5952]: the run [best] of [output] is
    replaced by ["::"]. *)
Definition replaceRun (output : string) (best : Address6.ShortenT) : string :=
  if Address6.sBegin best =? 0
  then ("::" ++ Js.sliceFrom (Z.to_nat (Address6.sEnd best)) output)%string
  else (Js.sliceTo (Z.to_nat (Address6.sBegin best)) output ++ ":"
        ++ Js.sliceFrom (Z.to_nat (Address6.sEnd best)) output)%string.

(** A group is all-zero when each of its octets is 0; [zeroGroups] flags
    the all-zero groups of an address. *)
Definition isZeroPair (item : list Z) : bool := forallb (fun o => o =? 0) item.

Definition zeroGroups (a : Address.t) : list bool :=
  map isZeroPair (Address6.getOctetsPair a).

(** [zeroRun zs i k]: the [k] groups from index [i] on exist and are all
    zero. *)
Definition zeroRun (zs : list bool) (i k : nat) : Prop :=
  (i + k <= List.length zs)%nat /\
  forall t, (i <= t < i + k)%nat -> nth t zs false = true.

(** The run of [k >= 2] zero groups at index [i] is the longest one (no
    run of [k + 1] groups anywhere) and the leftmost of that length (no run
    of [k] groups starts before [i]). *)
Definition leftmostLongest (zs : list bool) (i k : nat) : Prop :=
  (2 <= k)%nat /\ zeroRun zs i k
  /\ (forall j, ~ zeroRun zs j (S k))
  /\ (forall j, (j < i)%nat -> ~ zeroRun zs j k).

(** The two notions above as boolean tests. *)
Definition zeroRunb (zs : list bool) (i k : nat) : bool :=
  (i + k <=? List.length zs)%nat
  && forallb (fun t => nth t zs false) (seq i k).

Definition leftmostLongestb (zs : list bool) (i k : nat) : bool :=
  (2 <=? k)%nat && zeroRunb zs i k
  && forallb (fun j => negb (zeroRunb zs j (S k))) (seq 0 (S (List.length zs)))
  && forallb (fun j => negb (zeroRunb zs j k)) (seq 0 i).

Definition isRun (o : option run) (i k : nat) (trailing : bool) : bool :=
  match o with
  | Some r => (rStart r =? i)%nat && (rCount r =? k)%nat
              && Bool.eqb (rTrailing r) trailing
  | None => false
  end.

(** All the sequences of [n] flags. *)
Fixpoint allPatterns (n : nat) : list (list bool) :=
  match n with
  | O => [[]]
  | S m => map (cons true) (allPatterns m) ++ map (cons false) (allPatterns m)
  end.

(** The test the eight-group patterns are checked with: a leftmost longest
    run is the one [bestRun] picks, [bestRun] picks none when no two
    neighbours are zero, and a run [bestRun] picks is a leftmost longest
    one. *)
Definition patternOk (zs : list bool) : bool :=
  let n := List.length zs in
  forallb (fun i =>
    forallb (fun k =>
      implb (leftmostLongestb zs i k)
            (isRun (bestRun zs) i k (i + k =? n)%nat))
      (seq 0 (S n)))
    (seq 0 (S n))
  && implb (forallb (fun i => negb (zeroRunb zs i 2)) (seq 0 (S n)))
           (match bestRun zs with None => true | Some _ => false end)
  && match bestRun zs with
     | None => true
     | Some r =>
         leftmostLongestb zs (rStart r) (rCount r)
         && Bool.eqb (rTrailing r) (rStart r + rCount r =? n)%nat
     end.

(** The stripped form of the group of two octets, the values of a byte,
    and the test the 65536 groups are checked with. *)
Definition groupString (x y : Z) : string :=
  Js.replaceLeadingZeros (Js.join "" (map hexOctetToString [x; y])).

Definition byteValues : list Z := map Z.of_nat (seq 0 256).

Definition groupStringOk (x y : Z) : bool :=
  groupOk (groupString x y)
  && Bool.eqb (isZeroGroup (groupString x y)) (isZeroPair [x; y]).

(** *** Notions of the further properties *)

(** The callback [getOctetsPair] passes to [reduce]. *)
Definition pairStep (total : list (list Z)) (current : Z) (index : Z)
  : list (list Z) :=
  let total := if index mod 2 =? 0 then total ++ [[]] else total in
  Address6.pushLast total current.

(** The groups built before [index]: all of two octets when the index is
    even, all of two octets but the last one, of one octet, when it is
    odd. *)
Definition pairsUpTo (index : Z) (total : list (list Z)) : Prop :=
  if index mod 2 =? 0
  then Forall (fun g => List.length g = 2%nat) total
  else exists t g, total = t ++ [g]
                   /\ Forall (fun g => List.length g = 2%nat) t
                   /\ List.length g = 1%nat.

(** A part the IPv4 parser accepts: decimal digits, of value at most
    255. *)
Definition quadPartOk (p : string) : bool :=
  isDecimalString p && (Js.parseDigits 10 0 p <=? 255).

(** What the decimal form of a byte is checked for. *)
Definition decimalByteOk (b : Z) : bool :=
  let s := Js.numberToString b 10 in
  negb (Js.includes "."%char s) && negb (Js.includes ":"%char s)
  && isDecimalString s && (Js.parseDigits 10 0 s =? b).

(** The two string forms of a group of octets: the one of
    [getFullString] and the one of [calculateRfc5952]. *)
Definition fullGroupOf (item : list Z) : string :=
  Js.join "" (map hexOctetToString item).

Definition strippedGroupOf (item : list Z) : string :=
  Js.replaceLeadingZeros (fullGroupOf item).

(** The octets the parsing loop of [Address6] pushes for one item. *)
Definition itemOctets (item : string) : result (list Z) :=
  st <- Address6.parseItem 0 (Address6.mkLoop None []) 0 item ;;
  Ok (Address6.octets st).

(** The item [g] is a group (not empty, no dot, no colon) for which the
    loop pushes the octets [p]. *)
Definition parsesBack (g : string) (p : list Z) : Prop :=
  g <> ""%string /\ Js.includes "."%char g = false
  /\ Js.includes ":"%char g = false /\ itemOctets g = Ok p.

Definition parsesBackb (g : string) (x y : Z) : bool :=
  negb (String.eqb g "") && negb (Js.includes "."%char g)
  && negb (Js.includes ":"%char g)
  && match itemOctets g with
     | Ok [a; b] => (a =? x) && (b =? y)
     | _ => false
     end.

(** The test the 65536 groups are checked with: both forms of the group
    are parsed back to its two octets, and the full form has four
    characters. *)
Definition groupParsesBack (x y : Z) : bool :=
  parsesBackb (fullGroupOf [x; y]) x y
  && parsesBackb (strippedGroupOf [x; y]) x y
  && (String.length (fullGroupOf [x; y]) =? 4)%nat.

(** ** Properties *)

(** *** The numeric value of a byte sequence *)

Lemma numericValue_acc (l : list Z) (acc : Z) :
  fold_left (fun acc x => acc * 256 + x) l acc
  = acc * 256 ^ Z.of_nat (List.length l) + numericValue l.
Proof.
  unfold numericValue. revert acc.
  induction l as [|x l IH]; intros acc.
  - simpl. lia.
  - cbn [fold_left List.length]. rewrite IH, (IH (0 * 256 + x)).
    rewrite Nat2Z.inj_succ, Z.pow_succ_r by lia. ring.
Qed.

Lemma numericValue_cons (x : Z) (l : list Z) :
  numericValue (x :: l) = x * 256 ^ Z.of_nat (List.length l) + numericValue l.
Proof.
  unfold numericValue at 1. cbn [fold_left]. rewrite numericValue_acc. ring.
Qed.

Lemma numericValue_bound (l : list Z) :
  isValidByteArray l = true ->
  0 <= numericValue l < 256 ^ Z.of_nat (List.length l).
Proof.
  induction l as [|x l IH]; intros Hv.
  - cbn. lia.
  - cbn [isValidByteArray forallb] in Hv.
    apply andb_true_iff in Hv as [Hx Hl].
    cbn [isValidByte] in Hx. specialize (IH Hl).
    rewrite numericValue_cons. cbn [List.length].
    rewrite Nat2Z.inj_succ, Z.pow_succ_r by lia. nia.
Qed.

Lemma compareBytes_spec (a : list Z) : forall b,
  List.length a = List.length b ->
  isValidByteArray a = true -> isValidByteArray b = true ->
  match compareBytes a b with
  | Lesser => numericValue a < numericValue b
  | Equal => a = b
  | Greater => numericValue b < numericValue a
  end.
Proof.
  induction a as [|x a IH]; intros [|y b] Hlen Ha Hb; try discriminate.
  - reflexivity.
  - cbn [List.length] in Hlen. injection Hlen as Hlen.
    cbn [isValidByteArray forallb] in Ha, Hb.
    apply andb_true_iff in Ha as [Hx Ha], Hb as [Hy Hb].
    pose proof (numericValue_bound a Ha) as Ba.
    pose proof (numericValue_bound b Hb) as Bb.
    rewrite !numericValue_cons, <- Hlen in *.
    cbn [compareBytes].
    destruct (x <? y) eqn:Hxy; [apply Z.ltb_lt in Hxy; nia|].
    destruct (y <? x) eqn:Hyx; [apply Z.ltb_lt in Hyx; nia|].
    apply Z.ltb_ge in Hxy, Hyx. assert (x = y) by lia. subst y.
    specialize (IH b Hlen Ha Hb).
    destruct (compareBytes a b); [lia| congruence | lia].
Qed.


Lemma two_pow_split (e n : Z) :
  0 <= n ->
  (Qpower 2 (e + 8 * n) == inject_Z (256 ^ n) * Qpower 2 e)%Q.
Proof.
  intros Hn.
  rewrite Qpower_plus by discriminate.
  rewrite Zpower_Qpower by assumption.
  rewrite Qpower_mult.
  change (inject_Z 256) with (Qpower 2 8)%Q.
  ring.
Qed.

Lemma getDecimal_from (l : list Z) : forall (index : Z) (total : Q),
  (reduceFrom decimalStep l index total
   == total + inject_Z (numericValue l)
              * Qpower 2 (8 * (4 - index - Z.of_nat (List.length l))))%Q.
Proof.
  induction l as [|x l IH]; intros index total.
  - cbn [reduceFrom]. change (numericValue []) with 0. ring.
  - cbn [reduceFrom]. rewrite IH. unfold decimalStep.
    rewrite numericValue_cons. cbn [List.length]. rewrite Nat2Z.inj_succ.
    rewrite inject_Z_plus, inject_Z_mult.
    replace (8 * (4 - index - 1))
      with (8 * (4 - (index + 1) - Z.of_nat (List.length l))
            + 8 * Z.of_nat (List.length l)) by lia.
    rewrite two_pow_split by lia.
    replace (8 * (4 - index - Z.succ (Z.of_nat (List.length l))))
      with (8 * (4 - (index + 1) - Z.of_nat (List.length l))) by lia.
    ring.
Qed.

Lemma getDecimal_spec (a : Address.t) :
  (Address.getDecimal a
   == inject_Z (numericValue (Address.getOctets a))
      * Qpower 2 (8 * (4 - Z.of_nat (List.length (Address.getOctets a)))))%Q.
Proof.
  unfold Address.getDecimal, reduce.
  change (fun (total : Q) (octet index : Z) =>
            (total + inject_Z octet * Qpower 2 (8 * (4 - index - 1)))%Q)
    with decimalStep.
  rewrite getDecimal_from.
  replace (4 - 0 - Z.of_nat (List.length (Address.getOctets a)))
    with (4 - Z.of_nat (List.length (Address.getOctets a))) by lia.
  ring.
Qed.

Lemma getDecimal_address4 (a : Address.t) :
  List.length (Address.getOctets a) = 4%nat ->
  (Address.getDecimal a == inject_Z (numericValue (Address.getOctets a)))%Q.
Proof.
  intros H. rewrite getDecimal_spec, H. cbn. ring.
Qed.

(** C1 (the code departs from the claim).  The claim: [getDecimal()] is
    the big-endian value [Sigma octet[i] * 256^(N-1-i)] for an address of
    width N.  The callback has the width 4 written into it
    ([2 ** (8 * (4 - index - 1))]), so the claim holds for [Address4]
    ([getDecimal_address4]) and fails for [Address6], whose value is divided
    by [2^96] ([getDecimal_spec]): the address of ["::1"], of value 1, has
    the decimal [1 / 2^96].  Every number of this evaluation is a power of
    two or zero, so the native numbers compute it without rounding. *)
Theorem getDecimal_address6_is_scaled_down :
  exists a,
    Address6.new (InString "::1") = Ok a
    /\ numericValue (Address.getOctets a) = 1
    /\ (Address.getDecimal a == 1 # (2 ^ 96))%Q
    /\ ~ (Address.getDecimal a == inject_Z (numericValue (Address.getOctets a)))%Q.
Proof.
  eexists. split; [reflexivity|].
  split; [reflexivity|].
  split; [vm_compute; reflexivity|].
  vm_compute. discriminate.
Qed.

Lemma numericValue_snoc (l : list Z) (x : Z) :
  numericValue (l ++ [x]) = numericValue l * 256 + x.
Proof. unfold numericValue. rewrite fold_left_app. reflexivity. Qed.

Lemma isValidByteArray_rev (l : list Z) :
  isValidByteArray (rev l) = isValidByteArray l.
Proof.
  unfold isValidByteArray.
  induction l as [|x l IH]; [reflexivity|].
  cbn [rev forallb]. rewrite forallb_app, IH. cbn [forallb].
  rewrite andb_true_r. apply andb_comm.
Qed.

Lemma addLsb_length (a : list Z) : forall amount carry,
  List.length (addLsb a amount carry) = List.length a.
Proof.
  induction a as [|x a IH]; intros amount carry; cbn [addLsb List.length];
    [reflexivity|]. now rewrite IH.
Qed.

Lemma addLsb_valid (a : list Z) : forall amount carry,
  isValidByteArray (addLsb a amount carry) = true.
Proof.
  induction a as [|x a IH]; intros amount carry; cbn [addLsb]; [reflexivity|].
  cbn [isValidByteArray forallb isValidByte].
  fold (isValidByteArray (addLsb a (tl amount) ((x + match amount with [] => 0 | y :: _ => y end + carry) / 256))).
  rewrite IH.
  pose proof (Z.mod_pos_bound (x + match amount with [] => 0 | y :: _ => y end + carry) 256 ltac:(lia)).
  apply andb_true_iff; split; [|reflexivity].
  apply andb_true_iff; split; apply Z.leb_le; lia.
Qed.

Lemma addLsb_value (a : list Z) : forall amount carry,
  exists q,
    numericValue (rev a) + numericValue (rev amount) + carry
    = numericValue (rev (addLsb a amount carry))
      + q * 256 ^ Z.of_nat (List.length a).
Proof.
  induction a as [|x a IH]; intros amount carry.
  - exists (numericValue (rev amount) + carry).
    cbn [addLsb rev List.length Z.of_nat]. change (numericValue []) with 0.
    rewrite Z.pow_0_r. lia.
  - cbn [addLsb]. set (y := match amount with [] => 0 | y :: _ => y end).
    set (s := x + y + carry).
    destruct (IH (tl amount) (s / 256)) as [q Hq].
    exists q. cbn [rev List.length]. rewrite !numericValue_snoc.
    assert (Hamt : numericValue (rev amount) = numericValue (rev (tl amount)) * 256 + y).
    { subst y. destruct amount as [|y' amount']; [reflexivity|].
      cbn [rev tl]. apply numericValue_snoc. }
    rewrite Hamt, Nat2Z.inj_succ, Z.pow_succ_r by lia.
    pose proof (Z.div_mod s 256 ltac:(lia)) as Hs.
    subst s. lia.
Qed.

(** C5.  [add] is an addition on the fixed width of the address: the
    result has the width of the receiver, holds bytes, and its value is the
    sum modulo [256^N], the carry past the most significant byte being
    dropped; [Address4([255,255,255,255]).add([1])] has the octets
    [0,0,0,0]. *)
Theorem add_wraps_around :
  (forall (a : Address.t) (amount : list Z),
      let r := Address.add a amount in
      let width := Z.of_nat (List.length (Address.getOctets a)) in
      List.length (Address.getOctets r) = List.length (Address.getOctets a)
      /\ isValidByteArray (Address.getOctets r) = true
      /\ numericValue (Address.getOctets r)
         = (numericValue (Address.getOctets a) + numericValue amount)
             mod 256 ^ width)
  /\ octetsOf (a <- Address4.new (InArray [255; 255; 255; 255]) ;;
               Ok (Address.add a [1]))
     = Ok [0; 0; 0; 0].
Proof.
  split; [|reflexivity].
  intros a amount r width.
  unfold r, Address.add, Address.getOctets, Arrays.add in *.
  cbn [Address.byteContainer bytes] in *.
  set (l := bytes (Address.byteContainer a)) in *.
  assert (Hlen : List.length (rev (addLsb (rev l) (rev amount) 0)) = List.length l).
  { now rewrite length_rev, addLsb_length, length_rev. }
  assert (Hval : isValidByteArray (rev (addLsb (rev l) (rev amount) 0)) = true).
  { rewrite isValidByteArray_rev. apply addLsb_valid. }
  repeat split; [exact Hlen | exact Hval |].
  destruct (addLsb_value (rev l) (rev amount) 0) as [q Hq].
  rewrite !rev_involutive, length_rev, Z.add_0_r in Hq.
  pose proof (numericValue_bound _ Hval) as Hb. rewrite Hlen in Hb.
  subst width. rewrite Hq.
  rewrite Z.mod_add by (apply Z.pow_nonzero; lia).
  symmetry. apply Z.mod_small. exact Hb.
Qed.


Lemma exactlyOne_comparison (r : comparison) :
  exactlyOne (comparison_eqb r Lesser) (comparison_eqb r Equal)
             (comparison_eqb r Greater).
Proof. destruct r; cbv; tauto. Qed.

(** C7.  For two addresses of the same width, exactly one of [lt], [eq]
    and [gt] holds, [ge] is [gt || eq], and the three agree with the order
    of the big-endian values of the octets. *)
Theorem comparison_is_total_order (n : nat) (A B : Address.t) :
  wellFormed n A -> wellFormed n B ->
  exactlyOne (Address.lt A B) (Address.eq A B) (Address.gt A B)
  /\ Address.ge A B = Address.gt A B || Address.eq A B
  /\ (Address.lt A B = true
      <-> numericValue (Address.getOctets A) < numericValue (Address.getOctets B))
  /\ (Address.eq A B = true
      <-> numericValue (Address.getOctets A) = numericValue (Address.getOctets B))
  /\ (Address.gt A B = true
      <-> numericValue (Address.getOctets B) < numericValue (Address.getOctets A)).
Proof.
  intros [HlA HvA] [HlB HvB].
  split; [apply exactlyOne_comparison|].
  split; [reflexivity|].
  unfold Address.lt, Address.eq, Address.gt, compareWith.
  fold (Address.getOctets A).
  pose proof (compareBytes_spec (Address.getOctets A) (Address.getOctets B)
                ltac:(congruence) HvA HvB) as H.
  destruct (compareBytes (Address.getOctets A) (Address.getOctets B));
    cbn [comparison_eqb]; repeat split; intros; try discriminate; try lia;
    try (rewrite H in *; lia); try reflexivity.
Qed.

Lemma comparison_is_total_order_witness :
  let A := Address.mk (mkByteContainer [127; 0; 0; 1]) in
  let B := Address.mk (mkByteContainer [127; 0; 0; 2]) in
  exactlyOne (Address.lt A B) (Address.eq A B) (Address.gt A B)
  /\ Address.ge A B = Address.gt A B || Address.eq A B
  /\ (Address.lt A B = true
      <-> numericValue (Address.getOctets A) < numericValue (Address.getOctets B))
  /\ (Address.eq A B = true
      <-> numericValue (Address.getOctets A) = numericValue (Address.getOctets B))
  /\ (Address.gt A B = true
      <-> numericValue (Address.getOctets B) < numericValue (Address.getOctets A)).
Proof.
  intros A B. apply (comparison_is_total_order 4 A B); split; reflexivity.
Defined.
(** *** Decimal strings and the IPv4 round trip *)

Lemma digit_roundtrip (c : ascii) :
  Js.isDigitIn 10 c = true ->
  exists d, Js.digitValue c = Some d /\ 0 <= d < 10 /\ Js.digitChar d = c.
Proof.
  destruct c as [[] [] [] [] [] [] [] []]; intros H; try discriminate H;
    eexists; (split; [vm_compute; reflexivity|]); (split; [lia | reflexivity]).
Qed.

Lemma toDigits_fuel (radix : Z) (Hr : 2 <= radix) (f1 : nat) :
  forall (f2 : nat) (n : Z) (acc : string),
    (0 < f1)%nat -> (0 < f2)%nat ->
    0 <= n < 2 ^ Z.of_nat f1 -> n < 2 ^ Z.of_nat f2 ->
    Js.toDigits f1 radix n acc = Js.toDigits f2 radix n acc.
Proof.
  induction f1 as [|f1 IH]; intros f2 n acc H1 H2 B1 B2; [lia|].
  destruct f2 as [|f2]; [lia|].
  cbn [Js.toDigits].
  destruct (n / radix =? 0) eqn:Hq; [reflexivity|].
  apply Z.eqb_neq in Hq.
  assert (Hn : radix <= n).
  { destruct (Z_lt_le_dec n radix) as [Hlt|]; [|assumption].
    exfalso. apply Hq. apply Z.div_small. lia. }
  assert (Hdiv : 0 < n / radix) by (apply Z.div_str_pos; lia).
  assert (Hhalf : n / radix <= n / 2).
  { apply Z.div_le_compat_l; lia. }
  rewrite Nat2Z.inj_succ, Z.pow_succ_r in B1, B2 by lia.
  assert (n / 2 < 2 ^ Z.of_nat f1) by (apply Z.div_lt_upper_bound; lia).
  assert (n / 2 < 2 ^ Z.of_nat f2) by (apply Z.div_lt_upper_bound; lia).
  assert (0 < f1)%nat.
  { destruct f1; [|lia]. cbn in *. lia. }
  assert (0 < f2)%nat.
  { destruct f2; [|lia]. cbn in *. lia. }
  apply IH; lia.
Qed.

Lemma fuelFor_enough (n : Z) : 0 <= n -> n < 2 ^ Z.of_nat (Js.fuelFor n).
Proof.
  intros Hn. unfold Js.fuelFor.
  rewrite Nat2Z.inj_succ, Z2Nat.id by apply Z.log2_nonneg.
  destruct (Z.eq_dec n 0) as [->|Hz]; [cbn; lia|].
  apply Z.log2_spec. lia.
Qed.

Lemma numberToString_snoc (m d : Z) :
  0 < m -> 0 <= d < 10 ->
  Js.numberToString (m * 10 + d) 10
  = (Js.numberToString m 10 ++ String (Js.digitChar d) EmptyString)%string.
Proof.
  intros Hm Hd. unfold Js.numberToString.
  destruct (m * 10 + d <? 0) eqn:E1; [apply Z.ltb_lt in E1; lia|].
  destruct (m <? 0) eqn:E2; [apply Z.ltb_lt in E2; lia|].
  clear E1 E2.
  assert (Hgen : forall f n acc tail,
             (Js.toDigits f 10 n acc ++ tail)%string
             = Js.toDigits f 10 n (acc ++ tail)%string).
  { induction f as [|f IHf]; intros n acc tail; cbn [Js.toDigits]; [reflexivity|].
    destruct (n / 10 =? 0); [reflexivity|]. rewrite IHf. reflexivity. }
  rewrite Hgen. cbn [append].
  unfold Js.fuelFor at 1. cbn [Js.toDigits].
  replace ((m * 10 + d) mod 10) with d
    by (rewrite Z.add_comm, Z.mod_add by lia; symmetry; apply Z.mod_small; lia).
  replace ((m * 10 + d) / 10) with m
    by (rewrite Z.add_comm, Z.div_add by lia; rewrite Z.div_small by lia; lia).
  destruct (m =? 0) eqn:E; [apply Z.eqb_eq in E; lia|].
  assert (Hlog : 1 <= Z.log2 (m * 10 + d)).
  { apply Z.log2_le_pow2; lia. }
  apply toDigits_fuel; try lia.
  - unfold Js.fuelFor. lia.
  - split; [lia|]. rewrite Z2Nat.id by lia.
    assert (m * 10 + d < 2 ^ Z.succ (Z.log2 (m * 10 + d))) by (apply Z.log2_spec; lia).
    rewrite Z.pow_succ_r in H by lia.
    replace (Z.log2 (m*10+d)) with (Z.succ (Z.log2 (m*10+d) - 1)) in H by lia.
    rewrite Z.pow_succ_r in H by lia.
    replace (Z.log2 (m*10+d)) with (Z.succ (Z.log2 (m*10+d) - 1)) by lia.
    rewrite Z.pow_succ_r by lia. lia.
  - apply fuelFor_enough. lia.
Qed.



Lemma split_nonempty (sep : ascii) (s : string) : Js.split sep s <> [].
Proof.
  destruct s as [|c r]; cbn [Js.split]; [discriminate|].
  destruct (Ascii.eqb c sep); [discriminate|].
  destruct (Js.split sep r); discriminate.
Qed.

Lemma join_cons (sep x : string) (l : list string) :
  l <> [] -> Js.join sep (x :: l) = (x ++ sep ++ Js.join sep l)%string.
Proof. destruct l; [congruence|reflexivity]. Qed.

Lemma join_split (sep : ascii) (s : string) :
  Js.join (String sep EmptyString) (Js.split sep s) = s.
Proof.
  induction s as [|c r IH]; [reflexivity|].
  cbn [Js.split].
  destruct (Ascii.eqb c sep) eqn:E.
  - apply Ascii.eqb_eq in E. subst c.
    rewrite join_cons by apply split_nonempty.
    rewrite IH. reflexivity.
  - pose proof (split_nonempty sep r) as Hne.
    destruct (Js.split sep r) as [|h t]; [congruence|].
    destruct t as [|h' t].
    + cbn [Js.join] in *. now rewrite IH.
    + rewrite join_cons in * by discriminate.
      rewrite <- IH. reflexivity.
Qed.

Lemma append_empty_r (s : string) : (s ++ "")%string = s.
Proof. induction s as [|c s IH]; cbn [append]; [reflexivity|now rewrite IH]. Qed.

Lemma append_assoc_r (s1 s2 s3 : string) :
  (s1 ++ (s2 ++ s3))%string = ((s1 ++ s2) ++ s3)%string.
Proof. induction s1 as [|c s1 IH]; cbn [append]; [reflexivity|now rewrite IH]. Qed.

Lemma parseDigits_nonneg (r : string) : forall acc,
  0 <= acc -> 0 <= Js.parseDigits 10 acc r.
Proof.
  induction r as [|c r IH]; intros acc Hacc; cbn [Js.parseDigits]; [assumption|].
  destruct (Js.digitValue c) as [d|] eqn:Hd; [|assumption].
  destruct (d <? 10) eqn:Hlt; [|assumption].
  apply IH.
  assert (0 <= d).
  { destruct (digit_roundtrip c) as (d' & Hd' & Hr & _).
    - unfold Js.isDigitIn. rewrite Hd. assumption.
    - rewrite Hd in Hd'. injection Hd' as <-. lia. }
  lia.
Qed.

Lemma print_parse_tail (r : string) : forall m,
  allDigits 10 r = true -> 0 < m ->
  Js.numberToString (Js.parseDigits 10 m r) 10
  = (Js.numberToString m 10 ++ r)%string.
Proof.
  induction r as [|c r IH]; intros m Hall Hm.
  - cbn [Js.parseDigits]. symmetry. apply append_empty_r.
  - cbn [allDigits] in Hall. apply andb_true_iff in Hall as [Hc Hall].
    destruct (digit_roundtrip c Hc) as (d & Hd & Hr & Hch).
    cbn [Js.parseDigits]. rewrite Hd.
    destruct (d <? 10) eqn:Hlt; [|apply Z.ltb_ge in Hlt; lia].
    rewrite IH by (assumption || lia).
    rewrite numberToString_snoc, Hch by lia.
    rewrite <- append_assoc_r. reflexivity.
Qed.

Lemma print_parse (p : string) :
  isDecimalString p = true -> hasLeadingZero p = false ->
  Js.numberToString (Js.parseDigits 10 0 p) 10 = p.
Proof.
  destruct p as [|c r]; [discriminate|].
  cbn [isDecimalString allDigits]. intros Hall Hlead.
  apply andb_true_iff in Hall as [Hc Hall].
  destruct (digit_roundtrip c Hc) as (d & Hd & Hr & Hch).
  cbn [Js.parseDigits]. rewrite Hd.
  destruct (d <? 10) eqn:Hlt; [|apply Z.ltb_ge in Hlt; lia].
  cbn [Z.mul Z.add].
  destruct (Z.eq_dec d 0) as [->|Hnz].
  - subst c. destruct r as [|c' r']; [reflexivity|].
    cbn in Hlead. discriminate.
  - rewrite print_parse_tail by (assumption || lia).
    f_equal. subst c.
    assert (d = 1 \/ d = 2 \/ d = 3 \/ d = 4 \/ d = 5 \/ d = 6 \/ d = 7 \/ d = 8 \/ d = 9) by lia.
    repeat (destruct H as [->|H]; [reflexivity|]). subst d. reflexivity.
Qed.

Lemma parseOctet_ok (p : string) :
  isDecimalString p = true -> Js.parseDigits 10 0 p <= 255 ->
  Address4.parseOctet p = Ok (Js.parseDigits 10 0 p).
Proof.
  intros Hdec Hle. unfold Address4.parseOctet. rewrite Hdec. cbn [negb].
  destruct p as [|c r]; [discriminate|].
  cbn [isDecimalString allDigits] in Hdec.
  apply andb_true_iff in Hdec as [Hc _].
  unfold Js.parseInt. rewrite Hc.
  pose proof (parseDigits_nonneg (String c r) 0 ltac:(lia)) as Hge.
  unfold isValidByte.
  destruct (0 <=? _) eqn:E1; [|apply Z.leb_gt in E1; lia].
  destruct (_ <=? 255) eqn:E2; [|apply Z.leb_gt in E2; lia].
  reflexivity.
Qed.

(** C6.  For every valid dotted-quad string [s] with no leading zero in
    any octet, [Address4(s)] is constructed and [getIpString()] gives [s]
    back. *)
Theorem address4_string_roundtrip (s : string) :
  canonicalDottedQuad s ->
  renderWith Address4.getIpString (Address4.new (InString s)) = Ok s.
Proof.
  intros [Hlen Hparts].
  unfold Address4.new, len. rewrite Hlen. cbn [Z.of_nat Z.eqb Pos.eqb IPV4_BYTES negb Pos.of_succ_nat Pos.succ].
  assert (Hmap : mapM Address4.parseOctet (Js.split "."%char s)
                 = Ok (map (Js.parseDigits 10 0) (Js.split "."%char s))).
  { clear Hlen. induction Hparts as [|p l (Hd & Hle & _) _ IH]; [reflexivity|].
    cbn [mapM map]. rewrite parseOctet_ok by assumption.
    cbn [bind]. rewrite IH. reflexivity. }
  rewrite Hmap. cbn [bind].
  assert (Hvalid : isValidByteArray (map (Js.parseDigits 10 0) (Js.split "."%char s)) = true).
  { clear Hlen Hmap. induction Hparts as [|p l (Hd & Hle & _) _ IH]; [reflexivity|].
    cbn [map isValidByteArray forallb]. apply andb_true_iff. split; [|exact IH].
    pose proof (parseDigits_nonneg p 0 ltac:(lia)).
    cbn [isValidByte]. apply andb_true_iff. split; apply Z.leb_le; lia. }
  unfold newByteContainer. rewrite Hvalid. cbn [bind renderWith].
  f_equal. unfold Address4.getIpString, Js.joinNumbers, Address.getOctets.
  cbn [Address.byteContainer bytes].
  rewrite map_map.
  rewrite <- (join_split "."%char s) at 2.
  f_equal.
  clear Hlen Hmap Hvalid. induction Hparts as [|p l (Hd & _ & Hz) _ IH]; [reflexivity|].
  cbn [map]. rewrite print_parse by assumption. f_equal. exact IH.
Qed.

Lemma address4_string_roundtrip_witness :
  renderWith Address4.getIpString (Address4.new (InString "192.168.0.1"))
  = Ok "192.168.0.1"%string.
Proof.
  apply (address4_string_roundtrip "192.168.0.1").
  split; [reflexivity|].
  repeat constructor; vm_compute; discriminate.
Defined.
(** *** What the constructors establish *)

(** Closes a goal [Throw e' = Throw e -> e = e']. *)
Ltac thrown := let H := fresh in intros H; injection H as <-; reflexivity.

Lemma newByteContainer_ok (l : list Z) (c : ByteContainer) :
  newByteContainer l = Ok c -> bytes c = l /\ isValidByteArray l = true.
Proof.
  unfold newByteContainer. destruct (isValidByteArray l); [|discriminate].
  intros H. injection H as <-. split; reflexivity.
Qed.

Lemma padded_array_wellFormed (width : Z) (a : list Z) (x : Address.t) :
  0 <= width ->
  (if len a >? width then Throw AddressValueError
   else if negb (isValidByteArray a) then Throw AddressValueError
   else
     padded <- (if len a <? width
                then fill <- Js.arrayFill (width - len a) 0 ;; Ok (fill ++ a)
                else Ok a) ;;
     c <- newByteContainer padded ;;
     Ok (Address.mk c)) = Ok x ->
  wellFormed (Z.to_nat width) x.
Proof.
  intros Hw. unfold len.
  destruct (_ >? width) eqn:Hgt; [discriminate|].
  rewrite Z.gtb_ltb in Hgt. apply Z.ltb_ge in Hgt.
  destruct (isValidByteArray a) eqn:Hval; [|discriminate]. cbn [negb].
  destruct (_ <? width) eqn:Hlt.
  - apply Z.ltb_lt in Hlt. unfold Js.arrayFill.
    destruct (_ <? 0) eqn:Hneg; [apply Z.ltb_lt in Hneg; lia|].
    cbn [bind].
    destruct (newByteContainer _) as [c|] eqn:Hc; [|discriminate].
    cbn [bind]. intros H. injection H as <-.
    apply newByteContainer_ok in Hc as [Hb Hv].
    unfold wellFormed, Address.getOctets. cbn [Address.byteContainer].
    rewrite Hb. split; [|exact Hv].
    rewrite length_app, repeat_length. lia.
  - apply Z.ltb_ge in Hlt. cbn [bind].
    destruct (newByteContainer a) as [c|] eqn:Hc; [|discriminate].
    cbn [bind]. intros H. injection H as <-.
    apply newByteContainer_ok in Hc as [Hb Hv].
    unfold wellFormed, Address.getOctets. cbn [Address.byteContainer].
    rewrite Hb. split; [lia | exact Hv].
Qed.

Lemma address4_of_array_wellFormed (a : list Z) (x : Address.t) :
  Address4.new (InArray a) = Ok x -> wellFormed 4 x.
Proof. apply (padded_array_wellFormed IPV4_BYTES). discriminate. Qed.

Lemma address6_of_array_wellFormed (a : list Z) (x : Address.t) :
  Address6.new (InArray a) = Ok x -> wellFormed 16 x.
Proof. apply (padded_array_wellFormed IPV6_BYTES). discriminate. Qed.

Lemma mapM_length {A B : Type} (f : A -> result B) (l : list A) :
  forall l', mapM f l = Ok l' -> List.length l' = List.length l.
Proof.
  induction l as [|x l IH]; intros l' H; cbn [mapM] in H.
  - injection H as <-. reflexivity.
  - destruct (f x) as [y|]; [|discriminate]. cbn [bind] in H.
    destruct (mapM f l) as [ys|]; [|discriminate]. cbn [bind] in H.
    injection H as <-. cbn [List.length]. now rewrite (IH ys).
Qed.

Lemma address4_of_string_wellFormed (s : string) (x : Address.t) :
  Address4.new (InString s) = Ok x -> wellFormed 4 x.
Proof.
  unfold Address4.new, len.
  destruct (_ =? IPV4_BYTES) eqn:Hlen; [|discriminate]. cbn [negb].
  apply Z.eqb_eq in Hlen.
  destruct (mapM _ _) as [l|] eqn:Hmap; [|discriminate]. cbn [bind].
  destruct (newByteContainer l) as [c|] eqn:Hc; [|discriminate]. cbn [bind].
  intros H. injection H as <-.
  apply newByteContainer_ok in Hc as [Hb Hv].
  apply mapM_length in Hmap.
  unfold wellFormed, Address.getOctets. cbn [Address.byteContainer].
  rewrite Hb. split; [|exact Hv]. unfold IPV4_BYTES in Hlen. lia.
Qed.


(** *** The errors of the [Address4] constructor *)

Lemma parseOctet_valid (p : string) (n : Z) :
  Address4.parseOctet p = Ok n -> isValidByte (Some n) = true.
Proof.
  unfold Address4.parseOctet.
  destruct (isDecimalString p); [|discriminate]. cbn [negb].
  destruct (Js.parseInt p 10) as [m|]; [|discriminate].
  destruct (isValidByte (Some m)) eqn:E; [|discriminate]. cbn [negb].
  intros H. injection H as <-. exact E.
Qed.

Lemma parseOctet_error (p : string) (e : error) :
  Address4.parseOctet p = Throw e -> e = AddressValueError.
Proof.
  unfold Address4.parseOctet.
  destruct (isDecimalString p); cbn [negb]; [|thrown].
  destruct (isValidByte (Js.parseInt p 10)); cbn [negb];
    [|thrown].
  destruct (Js.parseInt p 10); [discriminate|].
  thrown.
Qed.

Lemma mapM_parseOctet (l : list string) :
  match mapM Address4.parseOctet l with
  | Ok octets => isValidByteArray octets = true
  | Throw e => e = AddressValueError
  end.
Proof.
  induction l as [|p l IH]; cbn [mapM]; [reflexivity|].
  destruct (Address4.parseOctet p) as [n|e] eqn:Hp; cbn [bind].
  - destruct (mapM Address4.parseOctet l) as [ns|e]; cbn [bind]; [|exact IH].
    cbn [isValidByteArray forallb]. apply andb_true_iff. split; [|exact IH].
    exact (parseOctet_valid p n Hp).
  - exact (parseOctet_error p e Hp).
Qed.

Lemma address4_of_string_error (s : string) (e : error) :
  Address4.new (InString s) = Throw e -> e = AddressValueError.
Proof.
  unfold Address4.new.
  destruct (len _ =? IPV4_BYTES); cbn [negb];
    [|thrown].
  pose proof (mapM_parseOctet (Js.split "."%char s)) as Hm.
  destruct (mapM _ _) as [l|e']; cbn [bind].
  - unfold newByteContainer. rewrite Hm. cbn [bind]. discriminate.
  - intros H; injection H as <-. exact Hm.
Qed.

(** *** The errors of the [Address6] constructor *)

Lemma digitValue_bound (c : ascii) (d : Z) :
  Js.digitValue c = Some d -> 0 <= d < 16.
Proof.
  destruct c as [[] [] [] [] [] [] [] []]; intros H; vm_compute in H;
    try discriminate H; injection H as <-; lia.
Qed.

Lemma parseDigits_two (s : string) :
  (String.length s <= 2)%nat ->
  0 <= Js.parseDigits 16 0 s <= 255.
Proof.
  intros Hlen.
  destruct s as [|c1 s]; [cbn; lia|].
  cbn [Js.parseDigits].
  destruct (Js.digitValue c1) as [d1|] eqn:H1; [|lia].
  pose proof (digitValue_bound c1 d1 H1).
  destruct (d1 <? 16); [|lia].
  destruct s as [|c2 s]; [cbn [Js.parseDigits]; lia|].
  cbn [Js.parseDigits].
  destruct (Js.digitValue c2) as [d2|] eqn:H2; [|lia].
  pose proof (digitValue_bound c2 d2 H2).
  destruct (d2 <? 16); [|lia].
  destruct s as [|c3 s]; [cbn [Js.parseDigits]; lia|].
  cbn [String.length] in Hlen. lia.
Qed.

Lemma toLowerCase_length (s : string) :
  String.length (Js.toLowerCase s) = String.length s.
Proof.
  induction s as [|c s IH]; cbn [Js.toLowerCase String.length]; [reflexivity|].
  now rewrite IH.
Qed.

Lemma sliceTo_length (n : nat) : forall s,
  (String.length (Js.sliceTo n s) <= n)%nat.
Proof.
  induction n as [|n IH]; intros s; cbn [Js.sliceTo String.length]; [lia|].
  destruct s as [|c s]; cbn [String.length]; [lia|].
  specialize (IH s). lia.
Qed.

Lemma sliceFrom_length (n : nat) : forall s,
  String.length (Js.sliceFrom n s) = (String.length s - n)%nat.
Proof.
  induction n as [|n IH]; intros s; cbn [Js.sliceFrom]; [lia|].
  destruct s as [|c s]; cbn [String.length]; [reflexivity|].
  apply IH.
Qed.

Lemma repeatChar_length (c : ascii) (n : nat) :
  String.length (Js.repeatChar c n) = n.
Proof.
  induction n as [|n IH]; cbn [Js.repeatChar String.length]; [reflexivity|].
  now rewrite IH.
Qed.

Lemma string_length_append (s1 s2 : string) :
  String.length (s1 ++ s2) = (String.length s1 + String.length s2)%nat.
Proof.
  induction s1 as [|c s1 IH]; cbn [append String.length]; [reflexivity|].
  now rewrite IH.
Qed.

Lemma isValidByteArray_app (l1 l2 : list Z) :
  isValidByteArray (l1 ++ l2) = isValidByteArray l1 && isValidByteArray l2.
Proof. apply forallb_app. Qed.

Lemma parseInt_hex_pair (s : string) (o : Z) :
  (String.length s <= 2)%nat -> Js.parseInt s 16 = Some o ->
  isValidByte (Some o) = true.
Proof.
  intros Hlen. unfold Js.parseInt.
  destruct s as [|c r]; [discriminate|].
  destruct (Js.isDigitIn 16 c); [|discriminate].
  pose proof (parseDigits_two (String c r) Hlen) as Hb.
  remember (Js.parseDigits 16 0 (String c r)) as v eqn:Hv.
  intros H. injection H as <-.
  cbn [isValidByte]. apply andb_true_iff. split; apply Z.leb_le; lia.
Qed.

Lemma parseItem_spec (n : Z) (st : Address6.loopState) (index : Z) (item : string) :
  isValidByteArray (Address6.octets st) = true ->
  match Address6.parseItem n st index item with
  | Ok st' => isValidByteArray (Address6.octets st') = true
  | Throw e => e = AddressValueError
  end.
Proof.
  intros Hval. unfold Address6.parseItem.
  destruct (String.eqb item "").
  { destruct (Address6.shortenedIndex st) as [si|]; [|exact Hval].
    destruct ((si =? 0) && (index =? 1)); [exact Hval|].
    destruct ((si =? n - 2) && (index =? n - 1)); [exact Hval|reflexivity]. }
  destruct (Js.includes "."%char item).
  { destruct (index =? n - 1); cbn [negb]; [|reflexivity].
    destruct (Address4.new (InString item)) as [a4|e] eqn:H4; cbn [bind].
    - cbn [Address6.octets]. rewrite isValidByteArray_app, Hval.
      apply (address4_of_string_wellFormed item a4 H4).
    - exact (address4_of_string_error item e H4). }
  unfold strlen, IPV6_SEGMENT_LENGTH.
  destruct (_ >? 4) eqn:Hgt; [reflexivity|].
  rewrite Z.gtb_ltb in Hgt. apply Z.ltb_ge in Hgt.
  set (item' := if Z.of_nat (String.length item) <? 4
                then (Js.repeatChar "0" (Z.to_nat (4 - Z.of_nat (String.length item)))
                      ++ item)%string
                else item).
  assert (Hlen' : String.length item' = 4%nat).
  { subst item'. destruct (_ <? 4) eqn:Hlt.
    - apply Z.ltb_lt in Hlt. rewrite string_length_append, repeatChar_length. lia.
    - apply Z.ltb_ge in Hlt. lia. }
  change (Z.to_nat (4 / 2)) with 2%nat.
  destruct (isHexadecimalString (Js.toLowerCase (Js.sliceTo 2 item')));
    cbn [negb]; [|reflexivity].
  destruct (isHexadecimalString (Js.toLowerCase (Js.sliceFrom 2 item')));
    cbn [negb]; [|reflexivity].
  destruct (Js.parseInt (Js.toLowerCase (Js.sliceTo 2 item')) 16) as [o1|] eqn:H1;
    [|reflexivity].
  destruct (Js.parseInt (Js.toLowerCase (Js.sliceFrom 2 item')) 16) as [o2|] eqn:H2;
    [|reflexivity].
  cbn [Address6.octets]. rewrite isValidByteArray_app, Hval.
  cbn [andb isValidByteArray forallb].
  assert (Ho1 : isValidByte (Some o1) = true).
  { apply (parseInt_hex_pair _ o1) in H1; [exact H1|].
    rewrite toLowerCase_length. apply sliceTo_length. }
  assert (Ho2 : isValidByte (Some o2) = true).
  { apply (parseInt_hex_pair _ o2) in H2; [exact H2|].
    rewrite toLowerCase_length, sliceFrom_length. lia. }
  rewrite Ho1, Ho2. reflexivity.
Qed.

Lemma parseLoop_spec (n : Z) (items : list string) :
  forall (index : Z) (st : Address6.loopState),
    isValidByteArray (Address6.octets st) = true ->
    match Address6.parseLoop n items index st with
    | Ok st' => isValidByteArray (Address6.octets st') = true
    | Throw e => e = AddressValueError
    end.
Proof.
  induction items as [|item rest IH]; intros index st Hval;
    cbn [Address6.parseLoop]; [exact Hval|].
  pose proof (parseItem_spec n st index item Hval) as Hitem.
  destruct (Address6.parseItem n st index item) as [st'|e]; cbn [bind].
  - apply IH. exact Hitem.
  - exact Hitem.
Qed.

Lemma isValidByteArray_repeat_zero (n : nat) : isValidByteArray (repeat 0 n) = true.
Proof. induction n as [|n IH]; [reflexivity|exact IH]. Qed.



Lemma array_branch_error (width : Z) (a : list Z) (e : error) :
  (if len a >? width then Throw AddressValueError
   else if negb (isValidByteArray a) then Throw AddressValueError
   else
     padded <- (if len a <? width
                then fill <- Js.arrayFill (width - len a) 0 ;; Ok (fill ++ a)
                else Ok a) ;;
     c <- newByteContainer padded ;;
     Ok (Address.mk c)) = @Throw Address.t e ->
  e = AddressValueError.
Proof.
  destruct (len a >? width); [thrown|].
  destruct (isValidByteArray a) eqn:Hval; cbn [negb];
    [|thrown].
  destruct (len a <? width) eqn:Hlt.
  - apply Z.ltb_lt in Hlt. unfold Js.arrayFill.
    destruct (_ <? 0) eqn:Hneg; [apply Z.ltb_lt in Hneg; lia|].
    cbn [bind]. unfold newByteContainer.
    rewrite isValidByteArray_app, isValidByteArray_repeat_zero, Hval.
    cbn [andb bind]. discriminate.
  - cbn [bind]. unfold newByteContainer. rewrite Hval. cbn [bind]. discriminate.
Qed.

Lemma address4_of_array_error (a : list Z) (e : error) :
  Address4.new (InArray a) = Throw e -> e = AddressValueError.
Proof. apply (array_branch_error IPV4_BYTES). Qed.

Lemma address6_of_array_error (a : list Z) (e : error) :
  Address6.new (InArray a) = Throw e -> e = AddressValueError.
Proof. apply (array_branch_error IPV6_BYTES). Qed.
(** *** A lone colon at the start or at the end of an IPv6 string *)

Section LoneColon.

Import Address6.

Lemma parseItem_keeps_elision (n : Z) (st st' : loopState) (index : Z)
    (item : string) (k : Z) :
  shortenedIndex st = Some k ->
  parseItem n st index item = Ok st' ->
  shortenedIndex st' = Some k.
Proof.
  intros Hsi. unfold parseItem. rewrite Hsi.
  destruct (String.eqb item "").
  { destruct ((k =? 0) && (index =? 1));
      [intros H; injection H as <-; exact Hsi|].
    destruct ((k =? n - 2) && (index =? n - 1)); [|discriminate].
    intros H; injection H as <-; exact Hsi. }
  destruct (Js.includes "."%char item).
  { destruct (negb (index =? n - 1)); [discriminate|].
    destruct (Address4.new (InString item)); [|discriminate].
    cbn [bind]. intros H; injection H as <-. reflexivity. }
  destruct (strlen item >? IPV6_SEGMENT_LENGTH); [discriminate|].
  destruct (negb (isHexadecimalString _)); [discriminate|].
  destruct (negb (isHexadecimalString _)); [discriminate|].
  destruct (Js.parseInt _ 16); [|discriminate].
  destruct (Js.parseInt _ 16); [|discriminate].
  intros H; injection H as <-. reflexivity.
Qed.

(** After a leading elision, the items from the second one on are parsed
    the same way one index further in a split that is one part longer. *)
Lemma parseItem_shift (n : Z) (st : loopState) (index : Z) (item : string) :
  shortenedIndex st = Some 0 -> 2 <= n -> 1 <= index ->
  (index = 1 -> item <> ""%string) ->
  parseItem n st index item = parseItem (n + 1) st (index + 1) item.
Proof.
  intros Hsi Hn Hidx Hfirst. unfold parseItem. rewrite Hsi.
  destruct (String.eqb item "") eqn:Hempty.
  { apply String.eqb_eq in Hempty.
    assert (index <> 1) by (intros E; exact (Hfirst E Hempty)).
    replace (index =? 1) with false by (symmetry; apply Z.eqb_neq; lia).
    replace (index + 1 =? 1) with false by (symmetry; apply Z.eqb_neq; lia).
    replace (0 =? n + 1 - 2) with false by (symmetry; apply Z.eqb_neq; lia).
    cbn [andb].
    destruct (0 =? n - 2) eqn:E; [|reflexivity].
    apply Z.eqb_eq in E.
    replace (index =? n - 1) with false by (symmetry; apply Z.eqb_neq; lia).
    reflexivity. }
  replace (index + 1 =? n + 1 - 1) with (index =? n - 1); [reflexivity|].
  destruct (Z.eqb_spec index (n - 1)); symmetry;
    [apply Z.eqb_eq | apply Z.eqb_neq]; lia.
Qed.

Lemma parseLoop_shift (n : Z) (items : list string) :
  forall (index : Z) (st : loopState),
    shortenedIndex st = Some 0 -> 2 <= n -> 1 <= index ->
    (index = 1 -> hd ""%string items <> ""%string) ->
    parseLoop n items index st = parseLoop (n + 1) items (index + 1) st.
Proof.
  induction items as [|item rest IH]; intros index st Hsi Hn Hidx Hfirst;
    cbn [parseLoop]; [reflexivity|].
  rewrite <- parseItem_shift by assumption.
  destruct (parseItem n st index item) as [st'|e] eqn:Hitem; cbn [bind];
    [|reflexivity].
  apply IH; try lia.
  exact (parseItem_keeps_elision n st st' index item 0 Hsi Hitem).
Qed.

Lemma split_length_pos (s : string) : 1 <= len (Js.split ":"%char s).
Proof.
  pose proof (split_nonempty ":"%char s).
  unfold len. destruct (Js.split ":"%char s); [congruence|cbn [List.length]; lia].
Qed.

Lemma leading_colon_is_elision (s : string) :
  hd ""%string (Js.split ":"%char s) <> ""%string ->
  Address6.new (InString (":" ++ s)) = Address6.new (InString ("::" ++ s)).
Proof.
  intros Hhd. unfold Address6.new.
  change (Js.split ":"%char (":" ++ s))
    with (""%string :: Js.split ":"%char s).
  change (Js.split ":"%char ("::" ++ s))
    with (""%string :: ""%string :: Js.split ":"%char s).
  set (P := Js.split ":"%char s) in *.
  pose proof (split_length_pos s) as Hlen. fold P in Hlen.
  replace (len (""%string :: P)) with (len P + 1)
    by (unfold len; cbn [List.length]; lia).
  replace (len (""%string :: ""%string :: P)) with (len P + 1 + 1)
    by (unfold len; cbn [List.length]; lia).
  cbn [parseLoop parseItem String.eqb shortenedIndex octets bind].
  cbn [Z.eqb Z.add Pos.eqb andb].
  rewrite (parseLoop_shift (len P + 1) P 1 (mkLoop (Some 0) []));
    try reflexivity; try lia.
  intros _. exact Hhd.
Qed.

(** Before a trailing elision, an item that is not the last one of the
    split is parsed the same way in a split that is one part longer. *)
Lemma parseItem_longer (n : Z) (st : loopState) (index : Z) (item : string) :
  index < n - 1 ->
  parseItem n st index item = parseItem (n + 1) st index item.
Proof.
  intros Hidx. unfold parseItem.
  replace (index =? n - 1) with false by (symmetry; apply Z.eqb_neq; lia).
  replace (index =? n + 1 - 1) with false by (symmetry; apply Z.eqb_neq; lia).
  destruct (String.eqb item ""); [|reflexivity].
  destruct (shortenedIndex st) as [si|]; [|reflexivity].
  rewrite !andb_false_r. reflexivity.
Qed.

Lemma parseLoop_longer (n : Z) (items : list string) :
  forall (index : Z) (st : loopState),
    index + len items <= n - 1 ->
    parseLoop n items index st = parseLoop (n + 1) items index st.
Proof.
  induction items as [|item rest IH]; intros index st Hidx;
    cbn [parseLoop]; [reflexivity|].
  unfold len in Hidx. cbn [List.length] in Hidx.
  rewrite <- parseItem_longer by lia.
  destruct (parseItem n st index item) as [st'|e]; cbn [bind]; [|reflexivity].
  apply IH. unfold len. lia.
Qed.

Lemma parseLoop_app (n : Z) (items1 items2 : list string) :
  forall (index : Z) (st : loopState),
    parseLoop n (items1 ++ items2) index st
    = (st' <- parseLoop n items1 index st ;;
       parseLoop n items2 (index + len items1) st').
Proof.
  induction items1 as [|item rest IH]; intros index st; cbn [app parseLoop].
  - cbn [bind]. f_equal. unfold len. cbn [List.length]. lia.
  - destruct (parseItem n st index item) as [st'|e]; cbn [bind]; [|reflexivity].
    rewrite IH.
    destruct (parseLoop n rest (index + 1) st'); cbn [bind]; [|reflexivity].
    f_equal. unfold len. cbn [List.length]. lia.
Qed.

(** The recorded index is the index of an item already parsed. *)
Lemma parseItem_elision_bound (n : Z) (st st' : loopState) (index : Z)
    (item : string) :
  (forall k, shortenedIndex st = Some k -> k < index) ->
  parseItem n st index item = Ok st' ->
  (forall k, shortenedIndex st' = Some k -> k < index + 1)
  /\ (item <> ""%string -> shortenedIndex st' = shortenedIndex st).
Proof.
  intros Hinv Hitem.
  destruct (shortenedIndex st) as [k0|] eqn:Hsi.
  - rewrite (parseItem_keeps_elision n st st' index item k0 Hsi Hitem).
    split; [|reflexivity].
    intros k Hk. injection Hk as <-. specialize (Hinv k0 eq_refl). lia.
  - revert Hitem. unfold parseItem. rewrite Hsi.
    destruct (String.eqb item "") eqn:Hempty.
    { intros H; injection H as <-. cbn [shortenedIndex]. split.
      - intros k Hk. injection Hk as <-. lia.
      - intros Hne. apply String.eqb_eq in Hempty. contradiction. }
    destruct (Js.includes "."%char item).
    { destruct (negb (index =? n - 1)); [discriminate|].
      destruct (Address4.new (InString item)); [|discriminate].
      cbn [bind]. intros H; injection H as <-. cbn [shortenedIndex].
      split; [discriminate|reflexivity]. }
    destruct (strlen item >? IPV6_SEGMENT_LENGTH); [discriminate|].
    destruct (negb (isHexadecimalString _)); [discriminate|].
    destruct (negb (isHexadecimalString _)); [discriminate|].
    destruct (Js.parseInt _ 16); [|discriminate].
    destruct (Js.parseInt _ 16); [|discriminate].
    intros H; injection H as <-. cbn [shortenedIndex].
    split; [discriminate|reflexivity].
Qed.

Lemma parseLoop_elision_bound (n : Z) (items : list string) :
  forall (index : Z) (st st' : loopState),
    (forall k, shortenedIndex st = Some k -> k < index) ->
    parseLoop n items index st = Ok st' ->
    forall k, shortenedIndex st' = Some k -> k < index + len items.
Proof.
  induction items as [|item rest IH]; intros index st st' Hinv Hloop;
    cbn [parseLoop] in Hloop.
  - injection Hloop as <-. intros k Hk. specialize (Hinv k Hk).
    unfold len. cbn [List.length]. lia.
  - destruct (parseItem n st index item) as [st1|e] eqn:Hitem; [|discriminate].
    cbn [bind] in Hloop.
    destruct (parseItem_elision_bound n st st1 index item Hinv Hitem) as [H1 _].
    intros k Hk. pose proof (IH (index + 1) st1 st' H1 Hloop k Hk).
    unfold len in *. cbn [List.length]. lia.
Qed.

Lemma split_snoc (s : string) :
  Js.split ":"%char (s ++ ":") = Js.split ":"%char s ++ [""%string].
Proof.
  induction s as [|c s IH]; [reflexivity|].
  cbn [append Js.split]. rewrite IH.
  destruct (Ascii.eqb c ":"%char); [reflexivity|].
  pose proof (split_nonempty ":"%char s).
  destruct (Js.split ":"%char s); [congruence|reflexivity].
Qed.

Lemma append_colons (s : string) : (s ++ "::")%string = ((s ++ ":") ++ ":")%string.
Proof. rewrite <- append_assoc_r. reflexivity. Qed.

Lemma trailing_step (m index : Z) (st : loopState) :
  index = m -> 1 <= m ->
  (forall k, shortenedIndex st = Some k -> k < m - 1) ->
  parseLoop (m + 1) [""%string] index st
  = parseLoop (m + 1 + 1) [""%string; ""%string] index st.
Proof.
  intros -> Hm Hsi. cbn [parseLoop]. unfold parseItem. cbn [String.eqb].
  destruct (shortenedIndex st) as [k|] eqn:Hk.
  - specialize (Hsi k eq_refl).
    replace (k =? m + 1 - 2) with false by (symmetry; apply Z.eqb_neq; lia).
    replace (k =? m + 1 + 1 - 2) with false by (symmetry; apply Z.eqb_neq; lia).
    cbn [andb].
    destruct (k =? 0) eqn:Hk0; cbn [andb bind]; [|reflexivity].
    apply Z.eqb_eq in Hk0.
    replace (m =? 1) with false by (symmetry; apply Z.eqb_neq; lia).
    reflexivity.
  - cbn [bind shortenedIndex].
    replace (m =? 0) with false by (symmetry; apply Z.eqb_neq; lia).
    cbn [andb].
    replace (m =? m + 1 + 1 - 2) with true by (symmetry; apply Z.eqb_eq; lia).
    replace (m + 1 =? m + 1 + 1 - 1) with true by (symmetry; apply Z.eqb_eq; lia).
    reflexivity.
Qed.

Lemma trailing_colon_is_elision (s : string) :
  last (Js.split ":"%char s) ""%string <> ""%string ->
  Address6.new (InString (s ++ ":")) = Address6.new (InString (s ++ "::")).
Proof.
  intros Hlast. unfold Address6.new.
  rewrite append_colons, !split_snoc.
  set (P := Js.split ":"%char s) in *.
  assert (HP : exists P' l, P = P' ++ [l] /\ l <> ""%string).
  { destruct (exists_last (split_nonempty ":"%char s)) as (P' & l & E).
    fold P in E. exists P', l. split; [exact E|].
    rewrite E, last_last in Hlast. exact Hlast. }
  destruct HP as (P' & l & HP & Hl).
  assert (Hn1 : len (P ++ [""%string]) = len P + 1).
  { unfold len. rewrite length_app. cbn [List.length]. lia. }
  assert (Hn2 : len ((P ++ [""%string]) ++ [""%string]) = len P + 1 + 1).
  { unfold len. rewrite !length_app. cbn [List.length]. lia. }
  rewrite Hn1, Hn2.
  assert (Hm' : len P = len P' + 1).
  { rewrite HP. unfold len. rewrite length_app. cbn [List.length]. lia. }
  assert (Hpos : 0 <= len P') by (unfold len; lia).
  remember (len P) as m eqn:Hm.
  rewrite <- app_assoc. cbn [app].
  rewrite !parseLoop_app. rewrite <- Hm.
  rewrite <- (parseLoop_longer (m + 1) P 0) by (rewrite <- Hm; lia).
  destruct (parseLoop (m + 1) P 0 (mkLoop None [])) as [st|e] eqn:Hloop;
    cbn [bind]; [|reflexivity].
  (* the recorded index, if any, is before the last part of [s] *)
  assert (Hsi : forall k, shortenedIndex st = Some k -> k < m - 1).
  { rewrite HP, parseLoop_app in Hloop.
    destruct (parseLoop (m + 1) P' 0 (mkLoop None [])) as [st1|e] eqn:H1;
      [|discriminate].
    cbn [bind parseLoop] in Hloop.
    destruct (parseItem (m + 1) st1 (0 + len P') l) as [st2|e] eqn:H2;
      [|discriminate].
    cbn [bind] in Hloop. injection Hloop as <-.
    assert (Hb0 : forall k, shortenedIndex (mkLoop None []) = Some k -> k < 0)
      by (intros k Hk; discriminate Hk).
    pose proof (parseLoop_elision_bound _ _ _ _ _ Hb0 H1) as Hb1.
    destruct (parseItem_elision_bound _ _ _ _ _ Hb1 H2) as [_ Hsame].
    rewrite (Hsame Hl). intros k Hk. specialize (Hb1 k Hk). lia. }
  rewrite (trailing_step m (0 + m) st); [reflexivity | lia | lia | exact Hsi].
Qed.

End LoneColon.
(** *** Construction from strings: concrete inputs *)

Section ConstructionExamples.

Local Open Scope string_scope.

Example address4_of_string_ok :
  octetsOf (Address4.new (InString "192.168.0.1")) = Ok [192; 168; 0; 1].
Proof. reflexivity. Qed.

Example address4_rejects_out_of_range_octet :
  Address4.new (InString "256.0.0.1") = Throw AddressValueError.
Proof. reflexivity. Qed.

Example address4_rejects_three_parts :
  Address4.new (InString "192.168.0") = Throw AddressValueError.
Proof. reflexivity. Qed.

Example address6_rejects_nine_groups :
  Address6.new (InString "1:2:3:4:5:6:7:8:9") = Throw AddressValueError.
Proof. reflexivity. Qed.

Example address6_rejects_second_elision :
  Address6.new (InString "1::2::3") = Throw AddressValueError.
Proof. reflexivity. Qed.

Example address6_loopback :
  octetsOf (Address6.new (InString "::1"))
  = Ok [0; 0; 0; 0; 0; 0; 0; 0; 0; 0; 0; 0; 0; 0; 0; 1].
Proof. reflexivity. Qed.

(** C2 (the code departs from the claim).  The claim: every invalid input
    of a constructor raises [AddressValueError].  An IPv6 string with an
    elision and more than eight groups leaves the loop with 18 octets; the
    expansion then evaluates [Array(16 - 18)], which throws the built-in
    [RangeError] before the length check that would have raised
    [AddressValueError] is reached.  It is the only way past
    [AddressValueError]: [address6_of_string_error] and the lemmas next to
    it show that every other failure of the two constructors raises it. *)
Theorem address6_too_long_with_elision_throws_RangeError :
  Address6.new (InString "1::2:3:4:5:6:7:8:9") = Throw RangeError.
Proof. reflexivity. Qed.

(** C4.  [Address6("::ffff:192.168.1.1")] is constructed, its octets are
    [0,0,0,0,0,0,0,0,0,0,255,255,192,168,1,1], and the last four of them are
    the octets [Address4] parses from the dotted-quad suffix. *)
Theorem address6_embedded_ipv4 :
  octetsOf (Address6.new (InString "::ffff:192.168.1.1"))
  = Ok [0; 0; 0; 0; 0; 0; 0; 0; 0; 0; 255; 255; 192; 168; 1; 1]
  /\ (exists a4 a6,
        Address4.new (InString "192.168.1.1") = Ok a4 /\
        Address6.new (InString "::ffff:192.168.1.1") = Ok a6 /\
        skipn 12 (Address.getOctets a6) = Address.getOctets a4).
Proof.
  split; [reflexivity|].
  eexists; eexists; repeat split; reflexivity.
Qed.

(** C9.  [Address6("")] and [Address6(":")] are both constructed and are
    the all-zero address: the loop records an elision at index 0 and pushes
    no octet, and the expansion splices 16 zero bytes in. *)
Theorem address6_empty_and_colon_are_all_zero :
  octetsOf (Address6.new (InString "")) = Ok (repeat 0 16)
  /\ octetsOf (Address6.new (InString ":")) = Ok (repeat 0 16)
  /\ Address6.parseLoop 1 (Js.split ":" "") 0 (Address6.mkLoop None [])
     = Ok (Address6.mkLoop (Some 0) [])
  /\ Address6.parseLoop 2 (Js.split ":" ":") 0 (Address6.mkLoop None [])
     = Ok (Address6.mkLoop (Some 0) []).
Proof. repeat split; reflexivity. Qed.

(** C10.  A lone colon at the start or at the end is taken as an elision:
    a string whose first part is not empty gives, with [":"] before it, what
    it gives with ["::"] before it, and a string whose last part is not empty
    gives, with [":"] after it, what it gives with ["::"] after it.
    [Address6(":1:2:3:4:5:6:7")] and [Address6("1:2:3:4:5:6:7:")] are
    constructed, with two zero bytes for the missing group at the place of
    the colon. *)
Theorem address6_lone_colon_is_elision :
  (forall s : string,
      hd "" (Js.split ":" s) <> "" ->
      Address6.new (InString (":" ++ s)) = Address6.new (InString ("::" ++ s)))
  /\ (forall s : string,
        last (Js.split ":" s) "" <> "" ->
        Address6.new (InString (s ++ ":")) = Address6.new (InString (s ++ "::")))
  /\ octetsOf (Address6.new (InString ":1:2:3:4:5:6:7"))
     = Ok [0; 0; 0; 1; 0; 2; 0; 3; 0; 4; 0; 5; 0; 6; 0; 7]
  /\ octetsOf (Address6.new (InString "1:2:3:4:5:6:7:"))
     = Ok [0; 1; 0; 2; 0; 3; 0; 4; 0; 5; 0; 6; 0; 7; 0; 0].
Proof.
  split; [exact leading_colon_is_elision|].
  split; [exact trailing_colon_is_elision|].
  split; reflexivity.
Qed.

Lemma address6_lone_colon_is_elision_witness :
  Address6.new (InString ":1:2:3:4:5:6:7")
  = Address6.new (InString "::1:2:3:4:5:6:7")
  /\ Address6.new (InString "1:2:3:4:5:6:7:")
     = Address6.new (InString "1:2:3:4:5:6:7::").
Proof.
  split.
  - apply (proj1 address6_lone_colon_is_elision "1:2:3:4:5:6:7").
    vm_compute. discriminate.
  - apply (proj1 (proj2 address6_lone_colon_is_elision) "1:2:3:4:5:6:7").
    vm_compute. discriminate.
Defined.

End ConstructionExamples.
(** *** The scan of [calculateRfc5952] and the runs of zero groups *)

Section Rfc5952.

Import Address6.

Lemma strlen_append (s1 s2 : string) : strlen (s1 ++ s2) = strlen s1 + strlen s2.
Proof.
  unfold strlen. induction s1 as [|c s1 IH]; cbn [append String.length]; lia.
Qed.

(** The loop over a concatenation is the loop over its second part, started
    where the loop over the first part ends. *)
Lemma scan_app (s1 s2 : string) : forall idx st,
  scan (s1 ++ s2) idx st = scan s2 (idx + strlen s1) (scan s1 idx st).
Proof.
  induction s1 as [|c s1 IH]; intros idx st; cbn [append scan].
  - f_equal. unfold strlen. cbn. lia.
  - rewrite IH. f_equal. unfold strlen. cbn [String.length]. lia.
Qed.

(** Inside a group that is not zero, nothing changes up to the next colon. *)
Lemma scan_inside_group (r : string) : forall idx st,
  Js.includes ":"%char r = false -> state st = NotShorten ->
  scan r idx st = st.
Proof.
  induction r as [|c r IH]; intros idx st Hinc Hst; cbn [scan]; [reflexivity|].
  cbn [Js.includes] in Hinc. apply orb_false_iff in Hinc as [Hc Hr].
  assert (Hstep : scanStep st idx c = st).
  { unfold scanStep. rewrite Hst, Hc. reflexivity. }
  rewrite Hstep. apply IH; assumption.
Qed.

Lemma nonzero_group_shape (g : string) :
  groupOk g = true -> isZeroGroup g = false ->
  exists c r, g = String c r /\ Ascii.eqb c "0"%char = false
              /\ Ascii.eqb c ":"%char = false /\ Js.includes ":"%char r = false.
Proof.
  destruct g as [|c r]; [discriminate|].
  unfold groupOk, isZeroGroup. cbn [Js.includes].
  intros Hok Hz. apply andb_true_iff in Hok as [Hcol Hlead].
  apply negb_true_iff, orb_false_iff in Hcol as [Hc Hr].
  exists c, r. repeat split; try assumption.
  destruct (Ascii.eqb c "0"%char) eqn:E; [|reflexivity].
  cbn [negb orb] in Hlead. apply String.eqb_eq in Hlead. subst r.
  apply Ascii.eqb_eq in E. subst c. discriminate Hz.
Qed.

Lemma zero_group_shape (g : string) : isZeroGroup g = true -> g = "0"%string.
Proof. apply String.eqb_eq. Qed.

(** Scanning one group that is not zero. *)
Lemma scan_nonzero_group (g : string) (idx : Z) (st : scanState) :
  groupOk g = true -> isZeroGroup g = false ->
  scan g idx st
  = match state st with
    | Shorten =>
        mkScan NotShorten (shortenBegin st)
          (if idx - shortenBegin st >? 2
           then shortens st ++ [mkShorten (shortenBegin st) idx (idx - shortenBegin st)]
           else shortens st)
    | _ => mkScan NotShorten (shortenBegin st) (shortens st)
    end.
Proof.
  intros Hok Hz.
  destruct (nonzero_group_shape g Hok Hz) as (c & r & -> & Hc0 & Hcc & Hr).
  cbn [scan]. rewrite scan_inside_group; try assumption.
  - unfold scanStep. rewrite Hc0, Hcc. cbn [orb].
    destruct st as [[] sb sh]; reflexivity.
  - unfold scanStep. rewrite Hc0, Hcc. cbn [orb].
    destruct st as [[] sb sh]; reflexivity.
Qed.

Lemma scan_zero_group (idx : Z) (st : scanState) :
  scan "0" idx st
  = match state st with
    | OctetBegin => mkScan Shorten idx (shortens st)
    | Shorten => st
    | NotShorten => st
    end.
Proof. destruct st as [[] sb sh]; reflexivity. Qed.

Lemma scan_colon (idx : Z) (st : scanState) :
  scan ":" idx st
  = match state st with
    | OctetBegin => mkScan NotShorten (shortenBegin st) (shortens st)
    | Shorten => st
    | NotShorten => mkScan OctetBegin (shortenBegin st) (shortens st)
    end.
Proof. destruct st as [[] sb sh]; reflexivity. Qed.

Lemma offset_app_r (done gs : list string) (j : nat) :
  offset (done ++ gs) (List.length done + j)
  = (offset done (List.length done) + offset gs j)%nat.
Proof.
  induction done as [|d done IH]; [reflexivity|].
  change (List.length (d :: done) + j)%nat with (S (List.length done + j)).
  cbn [app List.length offset]. rewrite IH. clear IH. lia.
Qed.

Lemma offset_next (done : list string) (g : string) (rest : list string) :
  offset (done ++ g :: rest) (S (List.length done))
  = (offset (done ++ g :: rest) (List.length done) + String.length g + 1)%nat.
Proof.
  pose proof (offset_app_r done (g :: rest) 1) as H1.
  pose proof (offset_app_r done (g :: rest) 0) as H0.
  replace (List.length done + 1)%nat with (S (List.length done)) in H1 by lia.
  rewrite Nat.add_0_r in H0. rewrite H1, H0. cbn [offset]. lia.
Qed.

Lemma strlen_join_last (done : list string) (g : string) :
  strlen (Js.join ":" (done ++ [g]))
  = Z.of_nat (offset (done ++ [g]) (List.length done)) + strlen g.
Proof.
  induction done as [|d done IH]; cbn [app List.length offset].
  - cbn [Js.join]. lia.
  - assert (Hne : done ++ [g] <> []) by (destruct done; discriminate).
    rewrite join_cons by assumption.
    rewrite !strlen_append, IH. unfold strlen. cbn [String.length]. lia.
Qed.

Lemma gtb_false (a b : Z) : a <= b -> (a >? b) = false.
Proof. intros H. rewrite Z.gtb_ltb. apply Z.ltb_ge. exact H. Qed.

Lemma groupRuns_zero (zs : list bool) (i : nat) (cur : option nat) :
  groupRuns (true :: zs) i cur
  = groupRuns zs (S i) (Some (match cur with Some b => b | None => i end)).
Proof. reflexivity. Qed.

Lemma groupRuns_nonzero (zs : list bool) (i : nat) (cur : option nat) :
  groupRuns (false :: zs) i cur = emitRun cur i false ++ groupRuns zs (S i) None.
Proof. reflexivity. Qed.

(** The runs the loop and the step after it record on the joined form of
    well-shaped groups are the runs [groupRuns] finds on the flags of the
    groups, by induction on the groups still to scan: [done] are the groups
    already scanned, [cur] the start of the run they end with. *)
Lemma scan_groups (all : list string) (gs : list string) :
  forall (done : list string) (st : scanState) (cur : option nat),
    all = done ++ gs -> gs <> [] ->
    Forall (fun g => groupOk g = true) gs ->
    stateMatches all st cur (List.length done) ->
    scanEnd (strlen (Js.join ":" all))
      (scan (Js.join ":" gs) (Z.of_nat (offset all (List.length done))) st)
    = shortens st
      ++ map (toShorten all)
           (groupRuns (map isZeroGroup gs) (List.length done) cur).
Proof.
  induction gs as [|g rest IH]; intros done st cur Hall Hne Hok Hst; [congruence|].
  inversion Hok as [|? ? Hg Hrest]; subst.
  destruct rest as [|g' rest'].
  - (* the last group *)
    clear IH. cbn [Js.join map].
    rewrite strlen_join_last.
    set (i := List.length done) in *.
    set (idx := Z.of_nat (offset (done ++ [g]) i)) in *.
    destruct (isZeroGroup g) eqn:Hz.
    + apply zero_group_shape in Hz. subst g.
      rewrite scan_zero_group. cbn [groupRuns].
      destruct cur as [b|]; cbn [stateMatches] in Hst.
      * destruct Hst as (Hs & Hb & Hlt & Hoff). rewrite Hs.
        unfold scanEnd. rewrite Hs, Hb. fold idx in Hoff.
        change (strlen "0") with 1.
        unfold emitRun, runLength; cbn [rCount rTrailing].
        replace (2 * Z.of_nat (S i - b) - 1) with (idx + 1 - Z.of_nat (offset (done ++ ["0"%string]) b)) by lia.
        destruct (_ >? 2) eqn:E; [|rewrite app_nil_r; reflexivity].
        cbn [map]. unfold toShorten; cbn [rStart rCount rTrailing runLength].
        rewrite strlen_join_last. fold i idx. change (strlen "0") with 1.
        unfold runLength; cbn [rCount rTrailing].
        do 2 f_equal. f_equal. lia.
      * rewrite Hst. unfold scanEnd; cbn [state shortenBegin shortens].
        change (strlen "0") with 1.
        replace (idx + 1 - idx >? 2) with false by (symmetry; apply gtb_false; lia).
        unfold emitRun, runLength; cbn [rCount rTrailing].
        replace (2 * Z.of_nat (S i - i) - 1 >? 2) with false
          by (symmetry; apply gtb_false; lia).
        rewrite app_nil_r. reflexivity.
    + rewrite scan_nonzero_group by assumption. cbn [groupRuns].
      destruct cur as [b|]; cbn [stateMatches] in Hst.
      * destruct Hst as (Hs & Hb & Hlt & Hoff). rewrite Hs.
        unfold scanEnd; cbn [state shortens]. rewrite Hb. fold idx in Hoff.
        unfold emitRun, runLength; cbn [rCount rTrailing app].
        rewrite app_nil_r.
        replace (2 * Z.of_nat (i - b) - 0) with (idx - Z.of_nat (offset (done ++ [g]) b)) by lia.
        destruct (_ >? 2) eqn:E; [|rewrite app_nil_r; reflexivity].
        cbn [map]. unfold toShorten, runLength; cbn [rStart rCount rTrailing].
        replace (b + (i - b))%nat with i by lia. fold idx.
        do 2 f_equal. f_equal. lia.
      * rewrite Hst. cbn [emitRun app map]. unfold scanEnd; cbn [state shortens].
        rewrite app_nil_r. reflexivity.
  - (* a group followed by others *)
    rewrite join_cons by discriminate.
    rewrite !scan_app.
    set (i := List.length done) in *.
    set (all := done ++ g :: g' :: rest') in *.
    set (idx := Z.of_nat (offset all i)) in *.
    assert (Hall' : all = (done ++ [g]) ++ g' :: rest').
    { subst all. rewrite <- app_assoc. reflexivity. }
    assert (Hlen' : List.length (done ++ [g]) = S i).
    { rewrite length_app. cbn [List.length]. lia. }
    assert (Hidx' : Z.of_nat (offset all (S i)) = idx + strlen g + strlen ":").
    { subst idx all i. rewrite offset_next. unfold strlen. cbn [String.length]. lia. }
    specialize (IH (done ++ [g])).
    rewrite Hlen' in IH. rewrite <- Hidx'.
    change (map isZeroGroup (g :: g' :: rest'))
      with (isZeroGroup g :: map isZeroGroup (g' :: rest')).
    destruct (isZeroGroup g) eqn:Hz.
    + pose proof (zero_group_shape g Hz) as Hg0.
      rewrite Hg0. rewrite scan_zero_group. rewrite groupRuns_zero.
      assert (Hstep : Z.of_nat (offset all (S i)) = idx + 2).
      { rewrite Hidx', Hg0. change (strlen "0") with 1. change (strlen ":") with 1. lia. }
      destruct cur as [b|]; cbn [stateMatches] in Hst.
      * destruct Hst as (Hs & Hb & Hlt & Hoff). rewrite Hs.
        rewrite scan_colon, Hs.
        apply IH; try assumption; [discriminate|].
        cbn [stateMatches]. repeat split; try assumption; try lia.
      * rewrite Hst. rewrite scan_colon. cbn [state].
        rewrite (IH (mkScan Shorten idx (shortens st)) (Some i)); try assumption;
          [reflexivity | discriminate |].
        cbn [stateMatches state shortenBegin]. repeat split; try reflexivity; lia.
    + rewrite (scan_nonzero_group g) by assumption. rewrite groupRuns_nonzero.
      rewrite map_app, app_assoc.
      destruct cur as [b|]; cbn [stateMatches] in Hst.
      * destruct Hst as (Hs & Hb & Hlt & Hoff). rewrite Hs.
        rewrite scan_colon. cbn [state shortenBegin shortens].
        rewrite (IH _ None); try assumption; [|discriminate|reflexivity].
        cbn [shortens]. f_equal.
        rewrite Hb. fold idx in Hoff.
        unfold emitRun, runLength; cbn [rCount rTrailing].
        replace (2 * Z.of_nat (i - b) - 0) with (idx - Z.of_nat (offset all b)) by lia.
        destruct (_ >? 2) eqn:E; [|rewrite app_nil_r; reflexivity].
        cbn [map]. unfold toShorten, runLength; cbn [rStart rCount rTrailing].
        replace (b + (i - b))%nat with i by lia. fold idx.
        do 2 f_equal. f_equal. lia.
      * rewrite Hst. rewrite scan_colon. cbn [state shortenBegin shortens].
        rewrite (IH _ None); try assumption; [|discriminate|reflexivity].
        cbn [shortens emitRun map]. rewrite app_nil_r. reflexivity.
Qed.

Lemma sliceTo_app (s x : string) (m : nat) :
  Js.sliceTo (String.length s + m) (s ++ x) = (s ++ Js.sliceTo m x)%string.
Proof.
  induction s as [|c s IH]; cbn [String.length Nat.add append Js.sliceTo];
    [reflexivity|]. now rewrite IH.
Qed.

Lemma sliceFrom_app (s x : string) (m : nat) :
  Js.sliceFrom (String.length s + m) (s ++ x) = Js.sliceFrom m x.
Proof.
  induction s as [|c s IH]; cbn [String.length Nat.add append Js.sliceFrom];
    [reflexivity|]. exact IH.
Qed.

Lemma sliceFrom_all (s : string) : Js.sliceFrom (String.length s) s = EmptyString.
Proof.
  induction s as [|c s IH]; cbn [String.length Js.sliceFrom]; [reflexivity|exact IH].
Qed.

(** The slices of the joined form at the start of a group. *)
Lemma sliceTo_offset (gs : list string) : forall i,
  (0 < i < List.length gs)%nat ->
  Js.sliceTo (offset gs i) (Js.join ":" gs)
  = (Js.join ":" (firstn i gs) ++ ":")%string.
Proof.
  induction gs as [|g r IH]; intros i Hi; cbn [List.length] in Hi; [lia|].
  destruct i as [|j]; [lia|].
  assert (Hr : r <> []) by (destruct r; [cbn in Hi; lia | discriminate]).
  rewrite join_cons by assumption.
  cbn [offset firstn].
  replace (String.length g + 1 + offset r j)%nat
    with (String.length g + (String.length ":" + offset r j))%nat
    by (cbn [String.length]; lia).
  rewrite sliceTo_app, sliceTo_app.
  destruct j as [|j'].
  - cbn [offset Js.sliceTo firstn Js.join]. reflexivity.
  - rewrite IH by lia.
    rewrite join_cons by (destruct r; [congruence | discriminate]).
    rewrite <- !append_assoc_r. reflexivity.
Qed.

Lemma sliceFrom_offset (gs : list string) : forall j,
  (j < List.length gs)%nat ->
  Js.sliceFrom (offset gs j) (Js.join ":" gs) = Js.join ":" (skipn j gs).
Proof.
  induction gs as [|g r IH]; intros j Hj; cbn [List.length] in Hj; [lia|].
  destruct j as [|j]; [reflexivity|].
  assert (Hr : r <> []) by (destruct r; [cbn in Hj; lia | discriminate]).
  rewrite join_cons by assumption.
  cbn [offset skipn].
  replace (String.length g + 1 + offset r j)%nat
    with (String.length g + (String.length ":" + offset r j))%nat
    by (cbn [String.length]; lia).
  rewrite sliceFrom_app, sliceFrom_app.
  apply IH. lia.
Qed.

Lemma offset_pos (gs : list string) (i : nat) :
  (0 < i <= List.length gs)%nat -> (0 < offset gs i)%nat.
Proof.
  destruct i as [|j]; [lia|]. destruct gs as [|g r]; cbn [List.length offset]; lia.
Qed.

(** Replacing a run of zero groups: the groups before it, ["::"], the
    groups after it. *)
Lemma replaceRun_groups (gs : list string) (r : run) :
  (0 < rCount r)%nat ->
  (rStart r + rCount r <= List.length gs)%nat ->
  rTrailing r = (rStart r + rCount r =? List.length gs)%nat ->
  replaceRun (Js.join ":" gs) (toShorten gs r)
  = (Js.join ":" (firstn (rStart r) gs) ++ "::"
     ++ Js.join ":" (skipn (rStart r + rCount r) gs))%string.
Proof.
  destruct r as [i k tr]; cbn [rStart rCount rTrailing]. intros Hk Hle Htr.
  unfold replaceRun, toShorten; cbn [sBegin sEnd rStart rCount rTrailing].
  assert (Hend : Js.sliceFrom
                   (Z.to_nat (if tr then strlen (Js.join ":" gs)
                              else Z.of_nat (offset gs (i + k))))
                   (Js.join ":" gs)
                 = Js.join ":" (skipn (i + k) gs)).
  { subst tr. destruct (Nat.eqb_spec (i + k) (List.length gs)) as [E|E].
    - unfold strlen. rewrite Nat2Z.id, sliceFrom_all, E, skipn_all. reflexivity.
    - rewrite Nat2Z.id. apply sliceFrom_offset. lia. }
  rewrite Hend.
  destruct i as [|j].
  - reflexivity.
  - destruct (Z.of_nat (offset gs (S j)) =? 0) eqn:E.
    + apply Z.eqb_eq in E.
      pose proof (offset_pos gs (S j) ltac:(lia)). lia.
    + rewrite Nat2Z.id, sliceTo_offset by lia.
      rewrite <- append_assoc_r. reflexivity.
Qed.


(** The [reduce] with [pickBest] looks at the lengths only, which are the
    lengths of the runs. *)
Lemma pickBest_toShorten (gs : list string) (l : list run) : forall r,
  fold_left pickBest (map (toShorten gs) l) (toShorten gs r)
  = toShorten gs (fold_left pickRun l r).
Proof.
  induction l as [|x l IH]; intros r; cbn [map fold_left]; [reflexivity|].
  rewrite <- IH. f_equal.
  unfold pickBest, pickRun. cbn [toShorten sLength].
  destruct (runLength r <? runLength x); reflexivity.
Qed.

(** [calculateRfc5952] on well-shaped groups: the run [bestRun] picks is the
    one replaced. *)
Lemma calculate_by_runs (a : Address.t) :
  strippedGroups a <> [] ->
  Forall (fun g => groupOk g = true) (strippedGroups a) ->
  calculateRfc5952 a
  = match bestRun (map isZeroGroup (strippedGroups a)) with
    | None => Js.join ":" (strippedGroups a)
    | Some r => replaceRun (Js.join ":" (strippedGroups a))
                  (toShorten (strippedGroups a) r)
    end.
Proof.
  intros Hne Hok. unfold calculateRfc5952.
  set (gs := strippedGroups a) in *.
  pose proof (scan_groups gs gs [] (mkScan OctetBegin 0 []) None
                eq_refl Hne Hok eq_refl) as H.
  cbn [List.length offset Z.of_nat shortens app] in H.
  rewrite H. unfold bestRun.
  destruct (groupRuns (map isZeroGroup gs) 0 None) as [|first others];
    [reflexivity|].
  cbn [map]. rewrite pickBest_toShorten. reflexivity.
Qed.

Lemma zeroRunb_spec (zs : list bool) (i k : nat) :
  zeroRunb zs i k = true <-> zeroRun zs i k.
Proof.
  unfold zeroRunb, zeroRun. rewrite andb_true_iff, Nat.leb_le, forallb_forall.
  split; intros [Hle Hall]; (split; [exact Hle|]).
  - intros t Ht. apply Hall, in_seq. lia.
  - intros t Ht. apply Hall. apply in_seq in Ht. lia.
Qed.

Lemma leftmostLongestb_complete (zs : list bool) (i k : nat) :
  leftmostLongest zs i k -> leftmostLongestb zs i k = true.
Proof.
  intros (Hk & Hrun & Hlong & Hleft). unfold leftmostLongestb.
  apply andb_true_iff; split;
    [apply andb_true_iff; split; [apply andb_true_iff; split|]|].
  - apply Nat.leb_le. exact Hk.
  - apply zeroRunb_spec. exact Hrun.
  - apply forallb_forall. intros j _. apply negb_true_iff.
    destruct (zeroRunb zs j (S k)) eqn:E; [|reflexivity].
    apply zeroRunb_spec in E. destruct (Hlong j E).
  - apply forallb_forall. intros j Hj. apply in_seq in Hj. apply negb_true_iff.
    destruct (zeroRunb zs j k) eqn:E; [|reflexivity].
    apply zeroRunb_spec in E. destruct (Hleft j ltac:(lia) E).
Qed.

Lemma allPatterns_complete (zs : list bool) :
  In zs (allPatterns (List.length zs)).
Proof.
  induction zs as [|z zs IH]; cbn [List.length allPatterns]; [left; reflexivity|].
  apply in_or_app. destruct z; [left|right]; apply in_map; exact IH.
Qed.

(** The 256 patterns of zero and non-zero groups of an IPv6 address, checked
    one by one. *)
Lemma eight_group_patterns_ok : forallb patternOk (allPatterns 8) = true.
Proof. vm_compute. reflexivity. Qed.

Lemma patternOk_eight (zs : list bool) :
  List.length zs = 8%nat -> patternOk zs = true.
Proof.
  intros H. pose proof (allPatterns_complete zs) as Hin. rewrite H in Hin.
  exact (proj1 (forallb_forall _ _) eight_group_patterns_ok zs Hin).
Qed.

Lemma bestRun_leftmostLongest (zs : list bool) (i k : nat) :
  List.length zs = 8%nat -> leftmostLongest zs i k ->
  bestRun zs = Some (mkRun i k (i + k =? 8)%nat).
Proof.
  intros Hlen Hll.
  pose proof (patternOk_eight zs Hlen) as Hok.
  unfold patternOk in Hok. rewrite Hlen in Hok.
  apply andb_true_iff in Hok as [Hok _].
  apply andb_true_iff in Hok as [Hok _].
  assert (Hle : (i + k <= 8)%nat).
  { destruct Hll as (_ & [Hle _] & _). rewrite Hlen in Hle. exact Hle. }
  rewrite forallb_forall in Hok. specialize (Hok i ltac:(apply in_seq; lia)).
  rewrite forallb_forall in Hok. specialize (Hok k ltac:(apply in_seq; lia)).
  rewrite (leftmostLongestb_complete zs i k Hll) in Hok.
  cbn [implb] in Hok. unfold isRun in Hok.
  destruct (bestRun zs) as [[i' k' tr]|]; [|discriminate].
  cbn [rStart rCount rTrailing] in Hok.
  apply andb_true_iff in Hok as [Hok Htr].
  apply andb_true_iff in Hok as [Hi Hk'].
  apply Nat.eqb_eq in Hi, Hk'. apply eqb_prop in Htr. subst. reflexivity.
Qed.

Lemma bestRun_no_neighbours (zs : list bool) :
  List.length zs = 8%nat -> (forall i, ~ zeroRun zs i 2) -> bestRun zs = None.
Proof.
  intros Hlen Hno.
  pose proof (patternOk_eight zs Hlen) as Hok.
  unfold patternOk in Hok. apply andb_true_iff in Hok as [Hok _].
  apply andb_true_iff in Hok as [_ Hok].
  assert (Hall : forallb (fun i => negb (zeroRunb zs i 2))
                         (seq 0 (S (List.length zs))) = true).
  { apply forallb_forall. intros i _. apply negb_true_iff.
    destruct (zeroRunb zs i 2) eqn:E; [|reflexivity].
    apply zeroRunb_spec in E. destruct (Hno i E). }
  rewrite Hall in Hok. cbn [implb] in Hok.
  destruct (bestRun zs); [discriminate|reflexivity].
Qed.

Lemma byteValues_complete (x : Z) : isValidByte (Some x) = true -> In x byteValues.
Proof.
  cbn [isValidByte]. intros H. apply andb_true_iff in H as [H0 H1].
  apply Z.leb_le in H0, H1. unfold byteValues.
  apply in_map_iff. exists (Z.to_nat x). split; [lia|].
  apply in_seq. lia.
Qed.

(** The 65536 groups of two bytes, checked one by one: the stripped form is
    well shaped, and it is ["0"] exactly for the group of two zero bytes. *)
Lemma all_groupStrings_ok :
  forallb (fun x => forallb (groupStringOk x) byteValues) byteValues = true.
Proof. vm_compute. reflexivity. Qed.

Lemma groupString_ok (x y : Z) :
  isValidByte (Some x) = true -> isValidByte (Some y) = true ->
  groupOk (groupString x y) = true
  /\ isZeroGroup (groupString x y) = isZeroPair [x; y].
Proof.
  intros Hx Hy.
  pose proof (proj1 (forallb_forall _ _) all_groupStrings_ok x
                (byteValues_complete x Hx)) as H.
  pose proof (proj1 (forallb_forall _ _) H y (byteValues_complete y Hy)) as H'.
  unfold groupStringOk in H'. apply andb_true_iff in H' as [H1 H2].
  split; [exact H1 | apply eqb_prop; exact H2].
Qed.


Lemma leftmostLongestb_sound (zs : list bool) (i k : nat) :
  leftmostLongestb zs i k = true -> leftmostLongest zs i k.
Proof.
  unfold leftmostLongestb. intros H.
  apply andb_true_iff in H as [H Hleft].
  apply andb_true_iff in H as [H Hlong].
  apply andb_true_iff in H as [Hk Hrun].
  apply Nat.leb_le in Hk. apply zeroRunb_spec in Hrun.
  rewrite forallb_forall in Hlong, Hleft.
  repeat split; try assumption; try apply Hrun.
  - intros j Hj. pose proof Hj as [Hle _].
    apply zeroRunb_spec in Hj.
    specialize (Hlong j ltac:(apply in_seq; lia)).
    rewrite Hj in Hlong. discriminate.
  - intros j Hlt Hj. apply zeroRunb_spec in Hj.
    specialize (Hleft j ltac:(apply in_seq; lia)).
    rewrite Hj in Hleft. discriminate.
Qed.

Lemma no_neighbours_sound (zs : list bool) :
  forallb (fun i => negb (zeroRunb zs i 2)) (seq 0 (S (List.length zs))) = true ->
  forall i, ~ zeroRun zs i 2.
Proof.
  intros H i Hi. rewrite forallb_forall in H.
  pose proof Hi as [Hle _]. apply zeroRunb_spec in Hi.
  specialize (H i ltac:(apply in_seq; lia)). rewrite Hi in H. discriminate.
Qed.

Lemma bestRun_is_leftmostLongest (zs : list bool) (r : run) :
  List.length zs = 8%nat -> bestRun zs = Some r ->
  leftmostLongest zs (rStart r) (rCount r)
  /\ rTrailing r = (rStart r + rCount r =? 8)%nat.
Proof.
  intros Hlen Hbest.
  pose proof (patternOk_eight zs Hlen) as Hok.
  unfold patternOk in Hok. apply andb_true_iff in Hok as [_ Hok].
  rewrite Hbest, Hlen in Hok. apply andb_true_iff in Hok as [H1 H2].
  split; [apply leftmostLongestb_sound; exact H1 | apply eqb_prop; exact H2].
Qed.

(** The groups of a well-formed IPv6 address. *)
(** The groups of an address of 16 bytes. *)
Lemma strippedGroups_wellFormed (a : Address.t) :
  wellFormed 16 a ->
  List.length (strippedGroups a) = 8%nat
  /\ Forall (fun g => groupOk g = true) (strippedGroups a)
  /\ map isZeroGroup (strippedGroups a) = zeroGroups a.
Proof.
  destruct a as [[l]]. unfold wellFormed, Address.getOctets.
  cbn [Address.byteContainer bytes]. intros [Hlen Hval].
  do 16 (destruct l as [|? l]; [discriminate Hlen|]).
  destruct l; [|discriminate Hlen]. clear Hlen.
  unfold isValidByteArray in Hval. cbn [forallb] in Hval.
  repeat (apply andb_true_iff in Hval as [? Hval]). clear Hval.
  assert (Hpairs : getOctetsPair
                     (Address.mk (mkByteContainer
                        [z; z0; z1; z2; z3; z4; z5; z6; z7; z8; z9; z10; z11;
                         z12; z13; z14]))
                   = [[z; z0]; [z1; z2]; [z3; z4]; [z5; z6]; [z7; z8];
                      [z9; z10]; [z11; z12]; [z13; z14]]) by reflexivity.
  unfold strippedGroups, zeroGroups. rewrite Hpairs. cbn [map].
  repeat match goal with
         | |- context [Js.replaceLeadingZeros
                         (Js.join "" [hexOctetToString ?x; hexOctetToString ?y])] =>
             change (Js.replaceLeadingZeros
                       (Js.join "" [hexOctetToString x; hexOctetToString y]))
               with (groupString x y)
         end.
  split; [reflexivity|].
  split.
  - repeat constructor; apply groupString_ok; assumption.
  - repeat (f_equal; [apply groupString_ok; assumption|]).
    f_equal. apply groupString_ok; assumption.
Qed.

(** [getRfc5952] on an address of 16 bytes, in terms of its groups. *)
Lemma rfc5952_by_bestRun (a : Address.t) :
  wellFormed 16 a ->
  getRfc5952 a
  = match bestRun (zeroGroups a) with
    | None => Js.join ":" (strippedGroups a)
    | Some r => (Js.join ":" (firstn (rStart r) (strippedGroups a)) ++ "::"
                 ++ Js.join ":" (skipn (rStart r + rCount r) (strippedGroups a)))%string
    end.
Proof.
  intros Hwf.
  destruct (strippedGroups_wellFormed a Hwf) as (Hlen & Hok & Hz).
  unfold getRfc5952. rewrite calculate_by_runs; try assumption.
  - rewrite Hz. destruct (bestRun (zeroGroups a)) as [r|] eqn:Hbest; [|reflexivity].
    assert (Hlz : List.length (zeroGroups a) = 8%nat).
    { rewrite <- Hz, length_map. exact Hlen. }
    destruct (bestRun_is_leftmostLongest _ r Hlz Hbest) as ((Hk & [Hle _] & _) & Htr).
    apply replaceRun_groups; rewrite ?Hlen; try lia. exact Htr.
  - intros E. rewrite E in Hlen. discriminate.
Qed.

(** C3.  [getRfc5952()] replaces the longest run of consecutive all-zero
    groups by ["::"], the leftmost one among the runs of that length: when
    the [k >= 2] groups from index [i] on are such a run, the result is the
    stripped groups before the run, ["::"], and the stripped groups after
    it.  The address of ["1080:0:0:0:8:800:200c:417a"] has the canonical
    form ["1080::8:800:200c:417a"]. *)
Theorem rfc5952_replaces_leftmost_longest_run :
  (forall (a : Address.t) (i k : nat),
      wellFormed 16 a ->
      leftmostLongest (zeroGroups a) i k ->
      getRfc5952 a
      = (Js.join ":" (firstn i (strippedGroups a)) ++ "::"
         ++ Js.join ":" (skipn (i + k) (strippedGroups a)))%string)
  /\ renderWith getRfc5952 (Address6.new (InString "1080:0:0:0:8:800:200c:417a"))
     = Ok "1080::8:800:200c:417a"%string.
Proof.
  split; [|reflexivity].
  intros a i k Hwf Hll.
  rewrite rfc5952_by_bestRun by assumption.
  destruct (strippedGroups_wellFormed a Hwf) as (Hlen & _ & Hz).
  rewrite (bestRun_leftmostLongest (zeroGroups a) i k); [reflexivity| |exact Hll].
  rewrite <- Hz, length_map. exact Hlen.
Qed.

Lemma rfc5952_replaces_leftmost_longest_run_witness :
  getRfc5952
    (Address.mk (mkByteContainer
       [16; 128; 0; 0; 0; 0; 0; 0; 0; 8; 8; 0; 32; 12; 65; 122]))
  = "1080::8:800:200c:417a"%string.
Proof.
  apply (proj1 rfc5952_replaces_leftmost_longest_run
           (Address.mk (mkByteContainer
              [16; 128; 0; 0; 0; 0; 0; 0; 0; 8; 8; 0; 32; 12; 65; 122]))
           1%nat 3%nat).
  - split; reflexivity.
  - apply leftmostLongestb_sound. vm_compute. reflexivity.
Defined.

(** C8.  [getRfc5952()] never replaces a single zero group: when no two
    neighbouring groups of the address are both all-zero, the result is the
    stripped groups joined by [":"], unshortened; and whenever the result is
    not that joined form, what was replaced by ["::"] is a run of at least
    two consecutive all-zero groups. *)
Theorem rfc5952_keeps_single_zero_groups (a : Address.t) :
  wellFormed 16 a ->
  ((forall i, ~ zeroRun (zeroGroups a) i 2) ->
   getRfc5952 a = Js.join ":" (strippedGroups a))
  /\ (getRfc5952 a = Js.join ":" (strippedGroups a)
      \/ exists i k,
           (2 <= k)%nat /\ zeroRun (zeroGroups a) i k
           /\ getRfc5952 a
              = (Js.join ":" (firstn i (strippedGroups a)) ++ "::"
                 ++ Js.join ":" (skipn (i + k) (strippedGroups a)))%string).
Proof.
  intros Hwf.
  destruct (strippedGroups_wellFormed a Hwf) as (Hlen & _ & Hz).
  assert (Hlz : List.length (zeroGroups a) = 8%nat).
  { rewrite <- Hz, length_map. exact Hlen. }
  rewrite rfc5952_by_bestRun by assumption.
  split.
  - intros Hno. rewrite (bestRun_no_neighbours _ Hlz Hno). reflexivity.
  - destruct (bestRun (zeroGroups a)) as [r|] eqn:Hbest; [right|left; reflexivity].
    destruct (bestRun_is_leftmostLongest _ r Hlz Hbest) as ((Hk & Hrun & _) & _).
    exists (rStart r), (rCount r). repeat split; try assumption; apply Hrun.
Qed.

Lemma rfc5952_keeps_single_zero_groups_witness :
  getRfc5952
    (Address.mk (mkByteContainer [0; 1; 0; 0; 0; 1; 0; 0; 0; 1; 0; 0; 0; 1; 0; 0]))
  = "1:0:1:0:1:0:1:0"%string.
Proof.
  apply (proj1 (rfc5952_keeps_single_zero_groups
                  (Address.mk (mkByteContainer
                     [0; 1; 0; 0; 0; 1; 0; 0; 0; 1; 0; 0; 0; 1; 0; 0]))
                  ltac:(split; reflexivity))).
  apply no_neighbours_sound. vm_compute. reflexivity.
Defined.


End Rfc5952.

(** ** Further properties of [address.ts] *)

(** *** [getOctetsPair] *)

Lemma pushLast_snoc (t : list (list Z)) (g : list Z) (x : Z) :
  Address6.pushLast (t ++ [g]) x = t ++ [g ++ [x]].
Proof.
  induction t as [|h t IH]; [reflexivity|].
  cbn [app Address6.pushLast]. rewrite IH.
  destruct (t ++ [g]) eqn:E; [destruct t; discriminate|reflexivity].
Qed.

Lemma pairStep_spec (total : list (list Z)) (x index : Z) :
  0 <= index -> pairsUpTo index total ->
  pairsUpTo (index + 1) (pairStep total x index)
  /\ List.concat (pairStep total x index) = List.concat total ++ [x].
Proof.
  intros Hidx. unfold pairsUpTo, pairStep.
  destruct (index mod 2 =? 0) eqn:E.
  - apply Z.eqb_eq in E.
    replace ((index + 1) mod 2 =? 0) with false
      by (symmetry; apply Z.eqb_neq; Z.div_mod_to_equations; lia).
    intros Hall. rewrite pushLast_snoc. cbn [app]. split.
    + exists total, [x]. repeat split; assumption.
    + rewrite concat_app. cbn [List.concat app]. reflexivity.
  - apply Z.eqb_neq in E.
    replace ((index + 1) mod 2 =? 0) with true
      by (symmetry; apply Z.eqb_eq; Z.div_mod_to_equations; lia).
    intros (t & g & -> & Hall & Hg). rewrite pushLast_snoc. split.
    + apply Forall_app. split; [exact Hall|].
      constructor; [|constructor]. rewrite length_app, Hg. reflexivity.
    + rewrite !concat_app. cbn [List.concat]. rewrite !app_nil_r, app_assoc.
      reflexivity.
Qed.

Lemma pairs_from (l : list Z) : forall (index : Z) (total : list (list Z)),
  0 <= index -> pairsUpTo index total ->
  pairsUpTo (index + Z.of_nat (List.length l)) (reduceFrom pairStep l index total)
  /\ List.concat (reduceFrom pairStep l index total) = List.concat total ++ l.
Proof.
  induction l as [|x l IH]; intros index total Hidx Hinv; cbn [reduceFrom].
  - cbn [List.length Z.of_nat]. rewrite Z.add_0_r, app_nil_r. split; [exact Hinv|reflexivity].
  - destruct (pairStep_spec total x index Hidx Hinv) as [Hinv' Hcat].
    destruct (IH (index + 1) (pairStep total x index) ltac:(lia) Hinv') as [H1 H2].
    split.
    + replace (index + Z.of_nat (List.length (x :: l)))
        with (index + 1 + Z.of_nat (List.length l))
        by (cbn [List.length]; lia).
      exact H1.
    + rewrite H2, Hcat, <- app_assoc. reflexivity.
Qed.

Lemma getOctetsPair_shape (a : Address.t) :
  List.concat (Address6.getOctetsPair a) = Address.getOctets a
  /\ (Nat.even (List.length (Address.getOctets a)) = true ->
      Forall (fun g => List.length g = 2%nat) (Address6.getOctetsPair a))
  /\ (Nat.even (List.length (Address.getOctets a)) = false ->
      exists t x, Address6.getOctetsPair a = t ++ [[x]]
                  /\ Forall (fun g => List.length g = 2%nat) t).
Proof.
  unfold Address6.getOctetsPair, reduce.
  change (fun (total : list (list Z)) (current index : Z) =>
            Address6.pushLast
              (if index mod 2 =? 0 then total ++ [[]] else total) current)
    with pairStep.
  destruct (pairs_from (Address.getOctets a) 0 [] ltac:(lia)) as [Hinv Hcat].
  { unfold pairsUpTo. cbn. constructor. }
  split; [exact Hcat|].
  set (n := List.length (Address.getOctets a)) in *.
  unfold pairsUpTo in Hinv. rewrite Z.add_0_l in Hinv.
  assert (Hpar : (Z.of_nat n mod 2 =? 0) = Nat.even n).
  {
    destruct (Nat.even n) eqn:E.
    - apply Nat.even_spec in E. destruct E as [m ->]. apply Z.eqb_eq.
      rewrite Nat2Z.inj_mul. rewrite Z.mul_comm. apply Z.mod_mul. lia.
    - apply Z.eqb_neq. intros H.
      assert (Nat.even n = true); [|congruence].
      apply Nat.even_spec. exists (Z.to_nat (Z.of_nat n / 2)).
      apply Nat2Z.inj. rewrite Nat2Z.inj_mul, Z2Nat.id
        by (apply Z.div_pos; lia).
      change (Z.of_nat 2) with 2. Z.div_mod_to_equations. lia. }
  rewrite Hpar in Hinv.
  split; intros E; rewrite E in Hinv; [exact Hinv|].
  destruct Hinv as (t & g & Ht & Hall & Hg).
  destruct g as [|x [|? ?]]; try discriminate Hg.
  exists t, x. split; assumption.
Qed.

(** X1. [getOctetsPair] cuts the octets into consecutive groups without
    losing or reordering any: the groups concatenated give the octets back.
    With an even number of octets every group has two of them; with an odd
    number the last group holds the single left-over octet. *)
Theorem getOctetsPair_partitions (a : Address.t) :
  List.concat (Address6.getOctetsPair a) = Address.getOctets a
  /\ (Nat.even (List.length (Address.getOctets a)) = true ->
      Forall (fun g => List.length g = 2%nat) (Address6.getOctetsPair a))
  /\ (Nat.even (List.length (Address.getOctets a)) = false ->
      exists t x, Address6.getOctetsPair a = t ++ [[x]]
                  /\ Forall (fun g => List.length g = 2%nat) t).
Proof. exact (getOctetsPair_shape a). Qed.

(** *** The IPv4 parser: what it accepts, and the way back from the
    printed form *)

Lemma parseOctet_inv (p : string) (n : Z) :
  Address4.parseOctet p = Ok n ->
  quadPartOk p = true /\ n = Js.parseDigits 10 0 p.
Proof.
  unfold Address4.parseOctet, quadPartOk.
  destruct (isDecimalString p) eqn:Hdec; [|discriminate]. cbn [negb andb].
  destruct p as [|c r]; [discriminate Hdec|].
  unfold Js.parseInt.
  destruct (Js.isDigitIn 10 c); [|discriminate].
  remember (Js.parseDigits 10 0 (String c r)) as v eqn:Hv.
  cbn [isValidByte].
  destruct ((0 <=? v) && (v <=? 255)) eqn:Hb; [|discriminate]. cbn [negb].
  intros H. injection H as <-.
  apply andb_true_iff in Hb as [_ Hb]. split; [exact Hb|reflexivity].
Qed.

Lemma quadPartOk_parse (p : string) :
  quadPartOk p = true -> Address4.parseOctet p = Ok (Js.parseDigits 10 0 p).
Proof.
  unfold quadPartOk. intros H. apply andb_true_iff in H as [Hd Hle].
  apply parseOctet_ok; [exact Hd | apply Z.leb_le; exact Hle].
Qed.

Lemma mapM_parseOctet_ok (l : list string) :
  forallb quadPartOk l = true ->
  mapM Address4.parseOctet l = Ok (map (Js.parseDigits 10 0) l).
Proof.
  induction l as [|p l IH]; cbn [forallb mapM map]; [reflexivity|].
  intros H. apply andb_true_iff in H as [Hp Hl].
  rewrite quadPartOk_parse, IH by assumption. reflexivity.
Qed.

Lemma mapM_parseOctet_inv (l : list string) (ns : list Z) :
  mapM Address4.parseOctet l = Ok ns -> forallb quadPartOk l = true.
Proof.
  revert ns. induction l as [|p l IH]; intros ns; cbn [mapM forallb];
    [reflexivity|].
  destruct (Address4.parseOctet p) as [n|] eqn:Hp; [|discriminate].
  cbn [bind]. destruct (mapM Address4.parseOctet l) as [ms|]; [|discriminate].
  intros _. apply parseOctet_inv in Hp as [Hp _].
  rewrite Hp, (IH ms eq_refl). reflexivity.
Qed.

(** X2. The [Address4] constructor accepts a string exactly when its split
    on '.' has four parts and every part is a non-empty string of decimal
    digits of value at most 255 (leading zeros allowed); the octets are then
    the values of the parts in order.  Every other string raises
    [AddressValueError]. *)
Theorem address4_string_accepted_iff (s : string) :
  let parts := Js.split "."%char s in
  if (List.length parts =? 4)%nat && forallb quadPartOk parts
  then octetsOf (Address4.new (InString s))
       = Ok (map (Js.parseDigits 10 0) parts)
  else Address4.new (InString s) = Throw AddressValueError.
Proof.
  intros parts.
  destruct ((List.length parts =? 4)%nat && forallb quadPartOk parts) eqn:Hc.
  - apply andb_true_iff in Hc as [Hlen Hall]. apply Nat.eqb_eq in Hlen.
    unfold Address4.new, len. fold parts. rewrite Hlen.
    change (negb (Z.of_nat 4 =? IPV4_BYTES)) with false. cbv iota.
    rewrite (mapM_parseOctet_ok parts Hall). cbn [bind].
    pose proof (mapM_parseOctet parts) as Hv.
    rewrite (mapM_parseOctet_ok parts Hall) in Hv.
    unfold newByteContainer. rewrite Hv. reflexivity.
  - destruct (Address4.new (InString s)) as [a|e] eqn:Hnew.
    + exfalso. revert Hnew. unfold Address4.new, len. fold parts.
      destruct (Z.of_nat (List.length parts) =? IPV4_BYTES) eqn:Hlen;
        [|discriminate]. cbn [negb].
      apply Z.eqb_eq in Hlen. unfold IPV4_BYTES in Hlen.
      destruct (mapM Address4.parseOctet parts) as [ns|] eqn:Hm; [|discriminate].
      apply mapM_parseOctet_inv in Hm.
      replace (List.length parts =? 4)%nat with true in Hc
        by (symmetry; apply Nat.eqb_eq; lia).
      rewrite Hm in Hc. discriminate.
    + f_equal. exact (address4_of_string_error s e Hnew).
Qed.

Lemma split_no_sep (sep : ascii) (s : string) :
  Js.includes sep s = false -> Js.split sep s = [s].
Proof.
  induction s as [|c s IH]; [reflexivity|].
  cbn [Js.includes Js.split]. intros H. apply orb_false_iff in H as [Hc Hs].
  rewrite Hc, (IH Hs). reflexivity.
Qed.

Lemma split_app_sep (sep : ascii) (p rest : string) :
  Js.includes sep p = false ->
  Js.split sep (p ++ String sep rest) = p :: Js.split sep rest.
Proof.
  induction p as [|c p IH]; cbn [append Js.includes Js.split].
  - intros _. rewrite Ascii.eqb_refl. reflexivity.
  - intros H. apply orb_false_iff in H as [Hc Hp].
    rewrite Hc, (IH Hp). reflexivity.
Qed.

(** Splitting what was joined: the parts come back when none of them
    holds the separator. *)
Lemma split_join (sep : ascii) (parts : list string) :
  parts <> [] ->
  Forall (fun p => Js.includes sep p = false) parts ->
  Js.split sep (Js.join (String sep EmptyString) parts) = parts.
Proof.
  induction parts as [|p rest IH]; intros Hne Hall; [congruence|].
  inversion Hall as [|? ? Hp Hrest]; subst.
  destruct rest as [|q rest'].
  - cbn [Js.join]. apply split_no_sep. exact Hp.
  - rewrite join_cons by discriminate.
    change (String sep "" ++ Js.join (String sep "") (q :: rest'))%string
      with (String sep (Js.join (String sep "") (q :: rest'))).
    rewrite split_app_sep by exact Hp.
    rewrite IH; [reflexivity | discriminate | exact Hrest].
Qed.

Lemma all_decimalBytes_ok : forallb decimalByteOk byteValues = true.
Proof. vm_compute. reflexivity. Qed.

Lemma decimalByte_ok (b : Z) :
  isValidByte (Some b) = true ->
  Js.includes "."%char (Js.numberToString b 10) = false
  /\ Js.includes ":"%char (Js.numberToString b 10) = false
  /\ quadPartOk (Js.numberToString b 10) = true
  /\ Js.parseDigits 10 0 (Js.numberToString b 10) = b.
Proof.
  intros Hb.
  pose proof (proj1 (forallb_forall _ _) all_decimalBytes_ok b
                (byteValues_complete b Hb)) as H.
  unfold decimalByteOk in H.
  apply andb_true_iff in H as [H H4]. apply andb_true_iff in H as [H H3].
  apply andb_true_iff in H as [H1 H2].
  apply negb_true_iff in H1, H2. apply Z.eqb_eq in H4.
  repeat split; try assumption.
  unfold quadPartOk. rewrite H3, H4. cbn [andb].
  cbn [isValidByte] in Hb. apply andb_true_iff in Hb as [_ Hb]. exact Hb.
Qed.

Lemma printed_bytes (l : list Z) :
  isValidByteArray l = true ->
  Forall (fun p => Js.includes "."%char p = false)
         (map (fun n => Js.numberToString n 10) l)
  /\ forallb quadPartOk (map (fun n => Js.numberToString n 10) l) = true
  /\ map (Js.parseDigits 10 0) (map (fun n => Js.numberToString n 10) l) = l.
Proof.
  induction l as [|b l IH]; cbn [isValidByteArray forallb map].
  - intros _. repeat split; constructor.
  - intros H. apply andb_true_iff in H as [Hb Hl].
    destruct (IH Hl) as (H1 & H2 & H3).
    destruct (decimalByte_ok b Hb) as (D1 & _ & D3 & D4).
    repeat split.
    + constructor; assumption.
    + rewrite D3, H2. reflexivity.
    + rewrite D4, H3. reflexivity.
Qed.

(** X3. Printing then parsing is the identity on IPv4 addresses: for every
    address of four valid bytes, the [Address4] constructor applied to
    [getIpString] gives the same address back. *)
Theorem address4_print_then_parse (a : Address.t) :
  wellFormed 4 a ->
  Address4.new (InString (Address4.getIpString a)) = Ok a.
Proof.
  destruct a as [[l]]. unfold wellFormed, Address.getOctets.
  cbn [Address.byteContainer bytes]. intros [Hlen Hval].
  destruct (printed_bytes l Hval) as (Hdot & Hok & Hback).
  unfold Address4.getIpString, Js.joinNumbers, Address.getOctets.
  cbn [Address.byteContainer bytes].
  unfold Address4.new.
  rewrite (split_join "."%char) by
    (assumption || (destruct l; [discriminate Hlen|discriminate])).
  unfold len. rewrite length_map, Hlen.
  change (negb (Z.of_nat 4 =? IPV4_BYTES)) with false. cbv iota.
  rewrite (mapM_parseOctet_ok _ Hok), Hback. cbn [bind].
  unfold newByteContainer. rewrite Hval. reflexivity.
Qed.

Lemma address4_print_then_parse_witness :
  Address4.new (InString "192.168.0.1")
  = Ok (Address.mk (mkByteContainer [192; 168; 0; 1])).
Proof.
  apply (address4_print_then_parse (Address.mk (mkByteContainer [192; 168; 0; 1]))).
  split; reflexivity.
Defined.

(** *** The constructors on arrays of octets *)

Lemma numericValue_zeros (n : nat) (l : list Z) :
  numericValue (repeat 0 n ++ l) = numericValue l.
Proof.
  induction n as [|n IH]; [reflexivity|].
  cbn [repeat app]. rewrite numericValue_cons, IH. lia.
Qed.

Lemma array_branch_spec (width : Z) (a : list Z) :
  0 <= width ->
  (if len a >? width then Throw AddressValueError
   else if negb (isValidByteArray a) then Throw AddressValueError
   else
     padded <- (if len a <? width
                then fill <- Js.arrayFill (width - len a) 0 ;; Ok (fill ++ a)
                else Ok a) ;;
     c <- newByteContainer padded ;;
     Ok (Address.mk c))
  = if (len a <=? width) && isValidByteArray a
    then Ok (Address.mk (mkByteContainer
               (repeat 0 (Z.to_nat (width - len a)) ++ a)))
    else Throw AddressValueError.
Proof.
  intros Hw. rewrite Z.gtb_ltb.
  destruct (width <? len a) eqn:Hgt.
  { apply Z.ltb_lt in Hgt.
    replace (len a <=? width) with false by (symmetry; apply Z.leb_gt; lia).
    reflexivity. }
  apply Z.ltb_ge in Hgt.
  replace (len a <=? width) with true by (symmetry; apply Z.leb_le; lia).
  cbn [andb].
  destruct (isValidByteArray a) eqn:Hval; cbn [negb]; [|reflexivity].
  destruct (len a <? width) eqn:Hlt.
  - apply Z.ltb_lt in Hlt. unfold Js.arrayFill.
    replace (width - len a <? 0) with false by (symmetry; apply Z.ltb_ge; lia).
    cbn [bind]. unfold newByteContainer.
    rewrite isValidByteArray_app, isValidByteArray_repeat_zero, Hval.
    reflexivity.
  - apply Z.ltb_ge in Hlt. cbn [bind].
    replace (width - len a) with 0 by lia. cbn [Z.to_nat repeat app].
    unfold newByteContainer. rewrite Hval. reflexivity.
Qed.

(** X4. Both constructors accept an array exactly when it is no longer than
    the address width (4 or 16) and holds only bytes; the octets are then the
    array padded on the left with zeros up to the width, so the numeric value
    of the array is kept.  Every other array raises [AddressValueError]. *)
Theorem address_of_array_pads_left (a : list Z) :
  (if (len a <=? 4) && isValidByteArray a
   then exists x,
       Address4.new (InArray a) = Ok x
       /\ Address.getOctets x = repeat 0 (4 - List.length a) ++ a
       /\ wellFormed 4 x
       /\ numericValue (Address.getOctets x) = numericValue a
   else Address4.new (InArray a) = Throw AddressValueError)
  /\ (if (len a <=? 16) && isValidByteArray a
      then exists x,
          Address6.new (InArray a) = Ok x
          /\ Address.getOctets x = repeat 0 (16 - List.length a) ++ a
          /\ wellFormed 16 x
          /\ numericValue (Address.getOctets x) = numericValue a
      else Address6.new (InArray a) = Throw AddressValueError).
Proof.
  split.
  - pose proof (array_branch_spec IPV4_BYTES a ltac:(discriminate)) as H.
    change (Address4.new (InArray a)
            = if (len a <=? 4) && isValidByteArray a
              then Ok (Address.mk (mkByteContainer
                         (repeat 0 (Z.to_nat (4 - len a)) ++ a)))
              else Throw AddressValueError) in H.
    destruct ((len a <=? 4) && isValidByteArray a) eqn:Hc; [|exact H].
    apply andb_true_iff in Hc as [Hlen _]. apply Z.leb_le in Hlen.
    eexists. split; [exact H|].
    replace (Z.to_nat (4 - len a)) with (4 - List.length a)%nat
      by (unfold len in *; lia).
    unfold Address.getOctets. cbn [Address.byteContainer bytes].
    split; [reflexivity|].
    split; [|apply numericValue_zeros].
    apply (address4_of_array_wellFormed a). rewrite H.
    replace (Z.to_nat (4 - len a)) with (4 - List.length a)%nat
      by (unfold len in *; lia).
    reflexivity.
  - pose proof (array_branch_spec IPV6_BYTES a ltac:(discriminate)) as H.
    change (Address6.new (InArray a)
            = if (len a <=? 16) && isValidByteArray a
              then Ok (Address.mk (mkByteContainer
                         (repeat 0 (Z.to_nat (16 - len a)) ++ a)))
              else Throw AddressValueError) in H.
    destruct ((len a <=? 16) && isValidByteArray a) eqn:Hc; [|exact H].
    apply andb_true_iff in Hc as [Hlen _]. apply Z.leb_le in Hlen.
    eexists. split; [exact H|].
    replace (Z.to_nat (16 - len a)) with (16 - List.length a)%nat
      by (unfold len in *; lia).
    unfold Address.getOctets. cbn [Address.byteContainer bytes].
    split; [reflexivity|].
    split; [|apply numericValue_zeros].
    apply (address6_of_array_wellFormed a). rewrite H.
    replace (Z.to_nat (16 - len a)) with (16 - List.length a)%nat
      by (unfold len in *; lia).
    reflexivity.
Qed.

(** *** From the string forms of [Address6] back to the address *)

Section BackToAddress6.

Import Address6.

Lemma parseItem_plain (n : Z) (st : loopState) (index : Z) (item : string) :
  item <> ""%string -> Js.includes "."%char item = false ->
  parseItem n st index item
  = (l <- itemOctets item ;; Ok (mkLoop (shortenedIndex st) (octets st ++ l))).
Proof.
  intros Hne Hdot. unfold itemOctets, parseItem.
  replace (String.eqb item "") with false
    by (symmetry; apply String.eqb_neq; exact Hne).
  rewrite Hdot.
  destruct (strlen item >? IPV6_SEGMENT_LENGTH); [reflexivity|].
  destruct (negb (isHexadecimalString _)); [reflexivity|].
  destruct (negb (isHexadecimalString _)); [reflexivity|].
  destruct (Js.parseInt _ 16); [|reflexivity].
  destruct (Js.parseInt _ 16); reflexivity.
Qed.

(** The loop over groups that are parsed back pushes their octets, in
    order, and leaves the recorded elision as it is. *)
Lemma parseLoop_groups (f : list Z -> string) (n : Z) (ps : list (list Z)) :
  forall (index : Z) (st : loopState),
    Forall (fun p => parsesBack (f p) p) ps ->
    parseLoop n (map f ps) index st
    = Ok (mkLoop (shortenedIndex st) (octets st ++ List.concat ps)).
Proof.
  induction ps as [|p ps IH]; intros index st Hall; cbn [map parseLoop List.concat].
  - rewrite app_nil_r. destruct st; reflexivity.
  - inversion Hall as [|? ? (Hne & Hdot & _ & Hback) Hrest]; subst.
    rewrite parseItem_plain, Hback by assumption. cbn [bind].
    rewrite IH by assumption. cbn [shortenedIndex octets].
    rewrite <- app_assoc. reflexivity.
Qed.

Lemma all_groups_parse_back :
  forallb (fun x => forallb (groupParsesBack x) byteValues) byteValues = true.
Proof. vm_compute. reflexivity. Qed.

Lemma parsesBackb_sound (g : string) (x y : Z) :
  parsesBackb g x y = true -> parsesBack g [x; y].
Proof.
  unfold parsesBackb, parsesBack. intros H.
  apply andb_true_iff in H as [H H4]. apply andb_true_iff in H as [H H3].
  apply andb_true_iff in H as [H1 H2].
  apply negb_true_iff in H1, H2, H3. apply String.eqb_neq in H1.
  repeat split; try assumption.
  destruct (itemOctets g) as [[|a [|b [|? ?]]]|]; try discriminate H4.
  apply andb_true_iff in H4 as [Ha Hb]. apply Z.eqb_eq in Ha, Hb. now subst.
Qed.

Lemma group_parses_back (x y : Z) :
  isValidByte (Some x) = true -> isValidByte (Some y) = true ->
  parsesBack (fullGroupOf [x; y]) [x; y]
  /\ parsesBack (strippedGroupOf [x; y]) [x; y]
  /\ String.length (fullGroupOf [x; y]) = 4%nat.
Proof.
  intros Hx Hy.
  pose proof (proj1 (forallb_forall _ _) all_groups_parse_back x
                (byteValues_complete x Hx)) as H.
  pose proof (proj1 (forallb_forall _ _) H y (byteValues_complete y Hy)) as H'.
  unfold groupParsesBack in H'.
  apply andb_true_iff in H' as [H' H3]. apply andb_true_iff in H' as [H1 H2].
  split; [apply parsesBackb_sound; exact H1|].
  split; [apply parsesBackb_sound; exact H2|].
  apply Nat.eqb_eq. exact H3.
Qed.

(** The groups of an address with an even number of octets, all bytes. *)
Lemma pairs_of_bytes (ps : list (list Z)) :
  Forall (fun g => List.length g = 2%nat) ps ->
  isValidByteArray (List.concat ps) = true ->
  Forall (fun p => exists x y, p = [x; y] /\ isValidByte (Some x) = true
                               /\ isValidByte (Some y) = true) ps.
Proof.
  induction 1 as [|p ps Hp _ IH]; intros Hval; constructor.
  - destruct p as [|x [|y [|? ?]]]; try discriminate Hp.
    cbn [List.concat app isValidByteArray forallb] in Hval.
    apply andb_true_iff in Hval as [Hx Hval].
    apply andb_true_iff in Hval as [Hy _].
    exists x, y. repeat split; assumption.
  - apply IH. cbn [List.concat] in Hval.
    rewrite isValidByteArray_app in Hval.
    apply andb_true_iff in Hval as [_ Hval]. exact Hval.
Qed.

Lemma address6_pairs (a : Address.t) :
  wellFormed 16 a ->
  List.length (getOctetsPair a) = 8%nat
  /\ List.concat (getOctetsPair a) = Address.getOctets a
  /\ Forall (fun p => exists x y, p = [x; y] /\ isValidByte (Some x) = true
                                  /\ isValidByte (Some y) = true)
            (getOctetsPair a).
Proof.
  intros [Hlen Hval].
  destruct (getOctetsPair_shape a) as (Hcat & Heven & _).
  rewrite Hlen in Heven. specialize (Heven eq_refl).
  split; [|split; [exact Hcat|]].
  - assert (H : forall ps : list (list Z),
               Forall (fun g => List.length g = 2%nat) ps ->
               List.length (List.concat ps) = (2 * List.length ps)%nat).
    { induction 1 as [|p ps Hp _ IH]; [reflexivity|].
      cbn [List.concat List.length]. rewrite length_app, IH, Hp. lia. }
    specialize (H _ Heven). rewrite Hcat, Hlen in H. lia.
  - apply pairs_of_bytes; [exact Heven|]. rewrite Hcat. exact Hval.
Qed.

Lemma groups_parse_back (a : Address.t) :
  wellFormed 16 a ->
  Forall (fun p => parsesBack (fullGroupOf p) p) (getOctetsPair a)
  /\ Forall (fun p => parsesBack (strippedGroupOf p) p) (getOctetsPair a)
  /\ Forall (fun p => String.length (fullGroupOf p) = 4%nat) (getOctetsPair a).
Proof.
  intros Hwf. destruct (address6_pairs a Hwf) as (_ & _ & Hps).
  split; [|split]; (eapply Forall_impl; [|exact Hps]);
    intros p (x & y & -> & Hx & Hy); apply (group_parses_back x y Hx Hy).
Qed.

Lemma parsesBack_no_colon (f : list Z -> string) (ps : list (list Z)) :
  Forall (fun p => parsesBack (f p) p) ps ->
  Forall (fun g => Js.includes ":"%char g = false) (map f ps).
Proof.
  induction 1 as [|p ps (_ & _ & Hc & _) _ IH]; cbn [map]; constructor;
    assumption.
Qed.

Lemma strlen_join_fixed (k : nat) (gs : list string) :
  Forall (fun g => String.length g = k) gs ->
  gs <> [] ->
  (String.length (Js.join ":" gs) + 1 = List.length gs * (k + 1))%nat.
Proof.
  induction 1 as [|g gs Hg Hall IH]; intros Hne; [congruence|].
  destruct gs as [|g' gs'].
  - cbn [Js.join List.length]. lia.
  - rewrite join_cons by discriminate.
    rewrite !string_length_append. specialize (IH ltac:(discriminate)).
    cbn [String.length List.length] in *. lia.
Qed.

(** X5. For every address of 16 valid bytes, [getFullString] is 39 characters
    long and the [Address6] constructor applied to it gives the same address
    back. *)
Theorem address6_full_string_parses_back (a : Address.t) :
  wellFormed 16 a ->
  Address6.new (InString (getFullString a)) = Ok a
  /\ String.length (getFullString a) = 39%nat.
Proof.
  intros Hwf.
  destruct (address6_pairs a Hwf) as (Hlen & Hcat & _).
  destruct (groups_parse_back a Hwf) as (Hfull & _ & Hfour).
  assert (Hne : map fullGroupOf (getOctetsPair a) <> []).
  { destruct (getOctetsPair a); [discriminate Hlen|discriminate]. }
  change (getFullString a)
    with (Js.join ":" (map fullGroupOf (getOctetsPair a))).
  split.
  - unfold Address6.new.
    rewrite (split_join ":"%char) by
      (exact Hne || exact (parsesBack_no_colon fullGroupOf _ Hfull)).
    rewrite (parseLoop_groups fullGroupOf) by exact Hfull.
    cbn [bind expand shortenedIndex octets app]. rewrite Hcat.
    destruct Hwf as [H16 Hval]. unfold len. rewrite H16.
    change (negb (Z.of_nat 16 =? IPV6_BYTES)) with false. cbv iota.
    unfold newByteContainer. rewrite Hval. cbn [bind].
    destruct a as [[l]]. reflexivity.
  - pose proof (strlen_join_fixed 4 (map fullGroupOf (getOctetsPair a))) as H.
    rewrite length_map, Hlen in H.
    assert (Hall : Forall (fun g => String.length g = 4%nat)
                          (map fullGroupOf (getOctetsPair a))).
    { apply Forall_map. exact Hfour. }
    specialize (H Hall Hne). lia.
Qed.

Lemma address6_full_string_parses_back_witness :
  Address6.new (InString "2001:0db8:0000:0000:0000:ff00:0042:8329")
  = Ok (Address.mk (mkByteContainer
          [32; 1; 13; 184; 0; 0; 0; 0; 0; 0; 255; 0; 0; 66; 131; 41]))
  /\ String.length "2001:0db8:0000:0000:0000:ff00:0042:8329" = 39%nat.
Proof.
  apply (address6_full_string_parses_back
           (Address.mk (mkByteContainer
              [32; 1; 13; 184; 0; 0; 0; 0; 0; 0; 255; 0; 0; 66; 131; 41]))).
  split; reflexivity.
Defined.

End BackToAddress6.

Section BackFromRfc5952.

Import Address6.

Lemma split_app_colon (sep : ascii) (x y : string) :
  Js.split sep (x ++ String sep y) = Js.split sep x ++ Js.split sep y.
Proof.
  induction x as [|c x IH]; cbn [append Js.split].
  - rewrite Ascii.eqb_refl. reflexivity.
  - rewrite IH. destruct (Ascii.eqb c sep); [reflexivity|].
    pose proof (split_nonempty sep x).
    destruct (Js.split sep x); [congruence|reflexivity].
Qed.

Lemma split_join_groups (f : list Z -> string) (ps : list (list Z)) :
  Forall (fun p => parsesBack (f p) p) ps ->
  Js.split ":"%char (Js.join ":" (map f ps))
  = match ps with [] => [""%string] | _ => map f ps end.
Proof.
  intros Hall. destruct ps as [|p ps]; [reflexivity|].
  apply (split_join ":"%char); [discriminate|].
  exact (parsesBack_no_colon f _ Hall).
Qed.

Lemma split_elided (f : list Z -> string) (A B : list (list Z)) :
  Forall (fun p => parsesBack (f p) p) A ->
  Forall (fun p => parsesBack (f p) p) B ->
  Js.split ":"%char (Js.join ":" (map f A) ++ "::" ++ Js.join ":" (map f B))
  = match A with [] => [""%string] | _ => map f A end
    ++ [""%string]
    ++ match B with [] => [""%string] | _ => map f B end.
Proof.
  intros HA HB.
  change ("::" ++ Js.join ":" (map f B))%string
    with (String ":" ("" ++ String ":" (Js.join ":" (map f B)))).
  rewrite split_app_colon, split_app_colon.
  rewrite !split_join_groups by assumption. reflexivity.
Qed.

(** The loop on the canonical form with an elision between the groups
    [A] and the groups [B], not both empty: the elision is recorded after
    [A], and the octets of [A] and [B] are pushed. *)
Lemma parseLoop_elided (f : list Z -> string) (A B : list (list Z)) :
  Forall (fun p => parsesBack (f p) p) A ->
  Forall (fun p => parsesBack (f p) p) B ->
  A <> [] \/ B <> [] ->
  let parts :=
    Js.split ":"%char (Js.join ":" (map f A) ++ "::" ++ Js.join ":" (map f B)) in
  parseLoop (len parts) parts 0 (mkLoop None [])
  = Ok (mkLoop (Some (len A)) (List.concat A ++ List.concat B)).
Proof.
  intros HA HB Hne parts. subst parts. rewrite split_elided by assumption.
  destruct A as [|a0 A'], B as [|b0 B'].
  - destruct Hne; congruence.
  - (* a leading elision *)
    set (B := b0 :: B') in *.
    change ([""%string] ++ [""%string] ++ map f B)
      with (""%string :: ""%string :: map f B).
    cbn [parseLoop]. unfold parseItem at 1. cbn [String.eqb shortenedIndex bind octets].
    unfold parseItem at 1. cbn [String.eqb shortenedIndex bind Z.eqb Z.add Pos.eqb andb].
    rewrite (parseLoop_groups f) by exact HB. reflexivity.
  - (* a trailing elision *)
    set (A := a0 :: A') in *.
    assert (HlenA : 1 <= len A) by (unfold len, A; cbn [List.length]; lia).
    clearbody A.
    change (map f A ++ [""%string] ++ [""%string])
      with (map f A ++ [""%string; ""%string]).
    assert (Hn : len (map f A ++ [""%string; ""%string]) = len A + 2).
    { unfold len. rewrite length_app, length_map. cbn [List.length]. lia. }
    rewrite Hn, parseLoop_app, (parseLoop_groups f) by exact HA.
    cbn [bind shortenedIndex octets app parseLoop].
    replace (len (map f A)) with (len A) by (unfold len; now rewrite length_map).
    unfold parseItem at 1. cbn [String.eqb shortenedIndex bind octets].
    unfold parseItem at 1. cbn [String.eqb shortenedIndex bind octets].
    rewrite (proj2 (Z.eqb_neq (0 + len A) 0)) by lia.
    rewrite (proj2 (Z.eqb_eq (0 + len A) (len A + 2 - 2))) by lia.
    rewrite (proj2 (Z.eqb_eq (0 + len A + 1) (len A + 2 - 1))) by lia.
    cbn [andb List.concat bind]. rewrite app_nil_r, Z.add_0_l. reflexivity.
  - (* an elision between groups *)
    set (A := a0 :: A') in *. set (B := b0 :: B') in *.
    change (map f A ++ [""%string] ++ map f B)
      with (map f A ++ ""%string :: map f B).
    rewrite parseLoop_app, (parseLoop_groups f) by exact HA.
    cbn [bind shortenedIndex octets app parseLoop].
    unfold parseItem at 1. cbn [String.eqb shortenedIndex bind octets].
    rewrite (parseLoop_groups f) by exact HB.
    cbn [shortenedIndex octets].
    replace (len (map f A)) with (len A) by (unfold len; now rewrite length_map).
    rewrite Z.add_0_l. reflexivity.
Qed.

End BackFromRfc5952.

Section BackFromRfc5952b.

Import Address6.

Lemma zero_slice (ps : list (list Z)) (i k : nat) :
  zeroRun (map isZeroPair ps) i k ->
  Forall (fun p => isZeroPair p = true) (firstn k (skipn i ps)).
Proof.
  intros [Hle Hz]. rewrite length_map in Hle.
  apply Forall_forall. intros p Hin.
  destruct (In_nth _ _ [] Hin) as (j & Hj & Hnth).
  rewrite length_firstn, length_skipn in Hj.
  rewrite nth_firstn in Hnth.
  replace (j <? k)%nat with true in Hnth by (symmetry; apply Nat.ltb_lt; lia).
  rewrite nth_skipn in Hnth.
  specialize (Hz (i + j)%nat ltac:(lia)).
  rewrite (nth_indep _ false (isZeroPair [])) in Hz
    by (rewrite length_map; lia).
  rewrite map_nth, Hnth in Hz. exact Hz.
Qed.

Lemma zero_pairs_concat (zs : list (list Z)) :
  Forall (fun p => isZeroPair p = true) zs ->
  Forall (fun g => List.length g = 2%nat) zs ->
  List.concat zs = repeat 0 (2 * List.length zs).
Proof.
  induction 1 as [|p zs Hp _ IH]; intros Hlen; [reflexivity|].
  inversion Hlen as [|? ? Hp2 Hrest]; subst.
  destruct p as [|x [|y [|? ?]]]; try discriminate Hp2.
  cbn [isZeroPair forallb] in Hp.
  apply andb_true_iff in Hp as [Hx Hy]. apply andb_true_iff in Hy as [Hy _].
  apply Z.eqb_eq in Hx, Hy. subst x y.
  cbn [List.concat List.length app]. rewrite (IH Hrest).
  replace (2 * S (List.length zs))%nat with (S (S (2 * List.length zs))) by lia.
  reflexivity.
Qed.

Lemma pairs_concat_length (ps : list (list Z)) :
  Forall (fun g => List.length g = 2%nat) ps ->
  List.length (List.concat ps) = (2 * List.length ps)%nat.
Proof.
  induction 1 as [|p ps Hp _ IH]; [reflexivity|].
  cbn [List.concat List.length]. rewrite length_app, IH, Hp. lia.
Qed.

(** The expansion of the elision recorded after the groups [A], with the
    groups [B] after it, in an address of eight groups: the zero bytes of
    the groups left out come back. *)
Lemma expand_elided (A B : list (list Z)) (k : nat) :
  Forall (fun g => List.length g = 2%nat) A ->
  Forall (fun g => List.length g = 2%nat) B ->
  (List.length A + k + List.length B = 8)%nat ->
  expand (mkLoop (Some (len A)) (List.concat A ++ List.concat B))
  = Ok (List.concat A ++ repeat 0 (2 * k) ++ List.concat B).
Proof.
  intros HA HB Hsum. unfold expand. cbn [shortenedIndex octets].
  pose proof (pairs_concat_length A HA) as HlA.
  pose proof (pairs_concat_length B HB) as HlB.
  unfold Js.arrayFill, len. rewrite length_app, HlA, HlB.
  unfold IPV6_BYTES.
  rewrite (proj2 (Z.ltb_ge _ 0)) by lia. cbn [bind].
  replace (Z.to_nat (Z.of_nat (List.length A) * 2))
    with (List.length (List.concat A)) by lia.
  rewrite firstn_app, firstn_all, Nat.sub_diag. cbn [firstn].
  rewrite skipn_app, skipn_all, Nat.sub_diag. cbn [skipn app].
  rewrite app_nil_r.
  replace (Z.to_nat (16 - Z.of_nat (2 * List.length A + 2 * List.length B)))
    with (2 * k)%nat by lia.
  reflexivity.
Qed.

Lemma all_zero_octets (ps : list (list Z)) :
  Forall (fun g => List.length g = 2%nat) ps ->
  zeroRun (map isZeroPair ps) 0 (List.length ps) ->
  List.concat ps = repeat 0 (2 * List.length ps).
Proof.
  intros Hlen Hrun. apply zero_slice in Hrun.
  cbn [skipn] in Hrun. rewrite firstn_all in Hrun.
  apply zero_pairs_concat; assumption.
Qed.

(** X6. For every address of 16 valid bytes other than the all-zero one,
    the [Address6] constructor applied to [getRfc5952] gives the same address
    back.  For the all-zero address [getRfc5952] is "::", which the
    constructor refuses with [AddressValueError]. *)
Theorem address6_canonical_form_parses_back (a : Address.t) :
  wellFormed 16 a ->
  (Address.getOctets a <> repeat 0 16 ->
   Address6.new (InString (getRfc5952 a)) = Ok a)
  /\ (Address.getOctets a = repeat 0 16 ->
      getRfc5952 a = "::"%string
      /\ Address6.new (InString (getRfc5952 a)) = Throw AddressValueError).
Proof.
  intros Hwf. split.
  2:{ destruct a as [[l]]. unfold Address.getOctets.
      cbn [Address.byteContainer bytes]. intros ->. split; reflexivity. }
  intros Hnz.
  destruct (address6_pairs a Hwf) as (Hlen & Hcat & Hbytes).
  destruct (groups_parse_back a Hwf) as (_ & Hback & _).
  destruct (getOctetsPair_shape a) as (_ & Heven & _).
  pose proof Hwf as [H16 Hval]. rewrite H16 in Heven. specialize (Heven eq_refl).
  rewrite rfc5952_by_bestRun by exact Hwf.
  change (strippedGroups a) with (map strippedGroupOf (getOctetsPair a)).
  set (ps := getOctetsPair a) in *.
  assert (Hfinish : forall octs, octs = Address.getOctets a ->
            (if negb (len octs =? IPV6_BYTES) then Throw AddressValueError
             else c <- newByteContainer octs ;; Ok (Address.mk c)) = Ok a).
  { intros octs ->. unfold len. rewrite H16.
    change (negb (Z.of_nat 16 =? IPV6_BYTES)) with false. cbv iota.
    unfold newByteContainer. rewrite Hval. cbn [bind].
    destruct a as [[l]]. reflexivity. }
  destruct (bestRun (zeroGroups a)) as [r|] eqn:Hbest.
  - (* a run is replaced *)
    assert (Hlz : List.length (zeroGroups a) = 8%nat).
    { unfold zeroGroups. fold ps. rewrite length_map. exact Hlen. }
    destruct (bestRun_is_leftmostLongest _ r Hlz Hbest)
      as ((Hk & Hrun & _ & _) & _).
    unfold zeroGroups in Hrun. fold ps in Hrun.
    set (i := rStart r) in *. set (k := rCount r) in *.
    pose proof Hrun as [Hle _]. rewrite length_map, Hlen in Hle.
    rewrite firstn_map, skipn_map.
    set (A := firstn i ps). set (B := skipn (i + k) ps).
    assert (Hsplit : ps = A ++ firstn k (skipn i ps) ++ B).
    { subst A B. rewrite (Nat.add_comm i k), <- skipn_skipn.
      rewrite firstn_skipn, firstn_skipn. reflexivity. }
    assert (HlenA : List.length A = i).
    { subst A. rewrite length_firstn. lia. }
    assert (HlenB : List.length B = (8 - (i + k))%nat).
    { subst B. rewrite length_skipn. lia. }
    assert (HA2 : Forall (fun g => List.length g = 2%nat) A).
    { rewrite Hsplit in Heven. apply Forall_app in Heven. apply Heven. }
    assert (HB2 : Forall (fun g => List.length g = 2%nat) B).
    { rewrite Hsplit in Heven. apply Forall_app in Heven as [_ Heven].
      apply Forall_app in Heven. apply Heven. }
    assert (HZ2 : Forall (fun g => List.length g = 2%nat) (firstn k (skipn i ps))).
    { rewrite Hsplit in Heven. apply Forall_app in Heven as [_ Heven].
      apply Forall_app in Heven. apply Heven. }
    assert (HAb : Forall (fun p => parsesBack (strippedGroupOf p) p) A).
    { rewrite Hsplit in Hback. apply Forall_app in Hback. apply Hback. }
    assert (HBb : Forall (fun p => parsesBack (strippedGroupOf p) p) B).
    { rewrite Hsplit in Hback. apply Forall_app in Hback as [_ Hback].
      apply Forall_app in Hback. apply Hback. }
    assert (Hzeros : List.concat (firstn k (skipn i ps)) = repeat 0 (2 * k)).
    { rewrite (zero_pairs_concat _ (zero_slice ps i k Hrun) HZ2).
      rewrite length_firstn, length_skipn. f_equal. lia. }
    assert (Hne : A <> [] \/ B <> []).
    { destruct A as [|a0 A'] eqn:EA; [|left; discriminate].
      destruct B as [|b0 B'] eqn:EB; [|right; discriminate].
      exfalso. apply Hnz. cbn [List.length] in HlenA.
      rewrite <- Hcat. fold ps. rewrite Hsplit. cbn [app].
      rewrite app_nil_r, Hzeros. f_equal.
      cbn [List.length] in HlenB. lia. }
    unfold Address6.new.
    rewrite (parseLoop_elided strippedGroupOf A B HAb HBb Hne). cbn [bind].
    rewrite (expand_elided A B k HA2 HB2) by lia. cbn [bind].
    apply Hfinish.
    transitivity (List.concat (A ++ firstn k (skipn i ps) ++ B));
      [rewrite !concat_app, Hzeros; reflexivity|].
    rewrite <- Hsplit. exact Hcat.
  - (* nothing is replaced *)
    unfold Address6.new.
    rewrite (split_join ":"%char)
      by ((destruct ps; [discriminate Hlen|discriminate])
          || exact (parsesBack_no_colon strippedGroupOf _ Hback)).
    rewrite (parseLoop_groups strippedGroupOf) by exact Hback.
    cbn [bind expand shortenedIndex octets app].
    apply Hfinish. exact Hcat.
Qed.

Lemma address6_canonical_form_parses_back_witness :
  Address6.new (InString "1080::8:800:200c:417a")
  = Ok (Address.mk (mkByteContainer
          [16; 128; 0; 0; 0; 0; 0; 0; 0; 8; 8; 0; 32; 12; 65; 122])).
Proof.
  apply (proj1 (address6_canonical_form_parses_back
                  (Address.mk (mkByteContainer
                     [16; 128; 0; 0; 0; 0; 0; 0; 0; 8; 8; 0; 32; 12; 65; 122]))
                  ltac:(split; reflexivity))).
  discriminate.
Defined.

End BackFromRfc5952b.

(** *** [getDecimal] on IPv4 addresses, and the comparison operators *)

Lemma numericValue_injective (a : list Z) : forall b,
  List.length a = List.length b ->
  isValidByteArray a = true -> isValidByteArray b = true ->
  numericValue a = numericValue b -> a = b.
Proof.
  intros b Hlen Ha Hb Hv.
  pose proof (compareBytes_spec a b Hlen Ha Hb) as H.
  destruct (compareBytes a b); [lia | exact H | lia].
Qed.

(** X7. On an address of four valid bytes [getDecimal] is the big-endian
    value of the octets, an integer from 0 to 2^32 - 1, and two such
    addresses with the same decimal value are the same address. *)
Theorem getDecimal_exact_on_address4 (a : Address.t) :
  wellFormed 4 a ->
  (Address.getDecimal a == inject_Z (numericValue (Address.getOctets a)))%Q
  /\ 0 <= numericValue (Address.getOctets a) < 2 ^ 32
  /\ (forall b, wellFormed 4 b ->
                (Address.getDecimal a == Address.getDecimal b)%Q -> a = b).
Proof.
  intros [Hlen Hval]. split; [apply getDecimal_address4; exact Hlen|].
  split.
  - pose proof (numericValue_bound _ Hval) as H. rewrite Hlen in H.
    change (256 ^ Z.of_nat 4) with (2 ^ 32) in H. exact H.
  - intros b [Hlenb Hvalb] Heq.
    rewrite (getDecimal_address4 a Hlen), (getDecimal_address4 b Hlenb) in Heq.
    apply (proj1 (inject_Z_injective _ _)) in Heq.
    destruct a as [[la]], b as [[lb]].
    unfold Address.getOctets in *. cbn [Address.byteContainer bytes] in *.
    f_equal. f_equal.
    apply numericValue_injective; try assumption. rewrite Hlen, Hlenb. reflexivity.
Qed.

Lemma getDecimal_exact_on_address4_witness :
  Qeq (Address.getDecimal (Address.mk (mkByteContainer [192; 168; 0; 1])))
      (inject_Z 3232235521).
Proof.
  apply (proj1 (getDecimal_exact_on_address4
                  (Address.mk (mkByteContainer [192; 168; 0; 1]))
                  ltac:(split; reflexivity))).
Defined.

(** X8. Whatever the byte container's comparison answers, the six operators
    agree with one another: [ne] is the negation of [eq], [le] of [gt] and
    [ge] of [lt], and [le] is [lt] or [eq]. *)
Theorem comparison_operators_are_complements (a other : Address.t) :
  Address.ne a other = negb (Address.eq a other)
  /\ Address.le a other = negb (Address.gt a other)
  /\ Address.ge a other = negb (Address.lt a other)
  /\ Address.le a other = Address.lt a other || Address.eq a other.
Proof.
  unfold Address.ne, Address.eq, Address.le, Address.gt, Address.ge, Address.lt.
  destruct (compareWith (Address.byteContainer a) (Address.getOctets other));
    repeat split; reflexivity.
Qed.

(** *** The IPv6 parser: embedded IPv4, rejected parts, and the errors *)

Section Address6Parser.

Import Address6.

Lemma address4_accepted_parts (q : string) (a4 : Address.t) :
  Address4.new (InString q) = Ok a4 ->
  List.length (Js.split "."%char q) = 4%nat
  /\ forallb quadPartOk (Js.split "."%char q) = true.
Proof.
  unfold Address4.new, len.
  destruct (Z.of_nat (List.length (Js.split "."%char q)) =? IPV4_BYTES) eqn:Hlen;
    [|discriminate]. cbn [negb].
  apply Z.eqb_eq in Hlen. unfold IPV4_BYTES in Hlen.
  destruct (mapM Address4.parseOctet (Js.split "."%char q)) as [ns|] eqn:Hm;
    [|discriminate].
  intros _. split; [lia|]. exact (mapM_parseOctet_inv _ ns Hm).
Qed.

Lemma digit_is_no_colon (c : ascii) :
  Js.isDigitIn 16 c = true -> Ascii.eqb c ":"%char = false.
Proof.
  destruct c as [[] [] [] [] [] [] [] []]; intros H; try reflexivity;
    discriminate H.
Qed.

Lemma decimal_digit_is_hex (c : ascii) :
  Js.isDigitIn 10 c = true -> Js.isDigitIn 16 c = true.
Proof.
  destruct c as [[] [] [] [] [] [] [] []]; intros H; try reflexivity;
    discriminate H.
Qed.

Lemma allDigits_no_colon (p : string) :
  allDigits 10 p = true -> Js.includes ":"%char p = false.
Proof.
  induction p as [|c p IH]; [reflexivity|].
  cbn [allDigits Js.includes]. intros H. apply andb_true_iff in H as [Hc Hp].
  rewrite (digit_is_no_colon c (decimal_digit_is_hex c Hc)), (IH Hp).
  reflexivity.
Qed.

Lemma includes_append (c : ascii) (x y : string) :
  Js.includes c (x ++ y) = Js.includes c x || Js.includes c y.
Proof.
  induction x as [|d x IH]; cbn [append Js.includes]; [reflexivity|].
  rewrite IH, orb_assoc. reflexivity.
Qed.

Lemma includes_join_dots (parts : list string) :
  forallb quadPartOk parts = true ->
  Js.includes ":"%char (Js.join "." parts) = false.
Proof.
  induction parts as [|p parts IH]; [reflexivity|].
  cbn [forallb]. intros H. apply andb_true_iff in H as [Hp Hrest].
  assert (Hpc : Js.includes ":"%char p = false).
  { unfold quadPartOk in Hp. apply andb_true_iff in Hp as [Hd _].
    destruct p; [discriminate Hd|]. apply allDigits_no_colon. exact Hd. }
  destruct parts as [|p' parts']; [exact Hpc|].
  rewrite join_cons by discriminate.
  rewrite !includes_append, Hpc, (IH Hrest). reflexivity.
Qed.

(** A dotted quad that [Address4] accepts holds a dot and no colon. *)
Lemma accepted_quad_shape (q : string) (a4 : Address.t) :
  Address4.new (InString q) = Ok a4 ->
  q <> ""%string /\ Js.includes "."%char q = true
  /\ Js.includes ":"%char q = false.
Proof.
  intros Hq. destruct (address4_accepted_parts q a4 Hq) as [Hlen Hok].
  assert (Hdot : Js.includes "."%char q = true).
  { destruct (Js.includes "."%char q) eqn:E; [reflexivity|].
    rewrite (split_no_sep "."%char q E) in Hlen. discriminate Hlen. }
  repeat split; try assumption.
  - intros ->. discriminate Hdot.
  - rewrite <- (join_split "."%char q). apply includes_join_dots. exact Hok.
Qed.

Lemma parseItem_ipv4_last (n : Z) (st : loopState) (index : Z) (item : string)
    (a4 : Address.t) :
  index = n - 1 ->
  Address4.new (InString item) = Ok a4 ->
  parseItem n st index item
  = Ok (mkLoop (shortenedIndex st) (octets st ++ Address.getOctets a4)).
Proof.
  intros Hidx H4. destruct (accepted_quad_shape item a4 H4) as (Hne & Hdot & _).
  unfold parseItem.
  rewrite (proj2 (String.eqb_neq item "") Hne), Hdot.
  rewrite (proj2 (Z.eqb_eq index (n - 1)) Hidx). cbn [negb].
  rewrite H4. reflexivity.
Qed.

Lemma finish_with_leading_elision (l : list Z) :
  (List.length l <= 16)%nat -> isValidByteArray l = true ->
  octetsOf
    (octets <- expand (mkLoop (Some 0) l) ;;
     if negb (len octets =? IPV6_BYTES) then Throw AddressValueError
     else c <- newByteContainer octets ;; Ok (Address.mk c))
  = Ok (repeat 0 (16 - List.length l) ++ l).
Proof.
  intros Hlen Hval. unfold expand. cbn [shortenedIndex octets].
  unfold Js.arrayFill, len, IPV6_BYTES.
  rewrite (proj2 (Z.ltb_ge _ 0)) by lia.
  cbn [bind Z.mul Z.to_nat firstn skipn app].
  replace (Z.to_nat (16 - Z.of_nat (List.length l)))
    with (16 - List.length l)%nat by lia.
  rewrite length_app, repeat_length.
  rewrite (proj2 (Z.eqb_eq _ 16)) by lia. cbn [negb].
  unfold newByteContainer.
  rewrite isValidByteArray_app, isValidByteArray_repeat_zero, Hval.
  reflexivity.
Qed.

(** X9. For every dotted quad [q] that the [Address4] constructor accepts,
    the [Address6] constructor accepts "::q" and "::ffff:q": the last four
    octets are those of [q], preceded by twelve zero octets, respectively by
    ten zero octets and ff ff. *)
Theorem address6_embeds_any_ipv4 (q : string) (a4 : Address.t) :
  Address4.new (InString q) = Ok a4 ->
  octetsOf (Address6.new (InString ("::" ++ q)))
  = Ok (repeat 0 12 ++ Address.getOctets a4)
  /\ octetsOf (Address6.new (InString ("::ffff:" ++ q)))
     = Ok (repeat 0 10 ++ [255; 255] ++ Address.getOctets a4).
Proof.
  intros Hq.
  destruct (accepted_quad_shape q a4 Hq) as (Hne & Hdot & Hcolon).
  destruct (address4_of_string_wellFormed q a4 Hq) as [Hlen Hval].
  split.
  - unfold Address6.new.
    change (Js.split ":"%char ("::" ++ q))
      with (""%string :: ""%string :: Js.split ":"%char q).
    rewrite (split_no_sep ":"%char q Hcolon).
    change (len [""%string; ""%string; q]) with 3.
    cbn [parseLoop]. unfold parseItem at 1. cbn [String.eqb shortenedIndex bind octets].
    unfold parseItem at 1.
    cbn [String.eqb shortenedIndex bind octets Z.eqb Z.add Pos.add Pos.succ Pos.eqb andb].
    rewrite (parseItem_ipv4_last 3 _ 2 q a4 eq_refl Hq).
    cbn [bind shortenedIndex octets app].
    rewrite finish_with_leading_elision by (rewrite ?Hlen; (lia || exact Hval)).
    rewrite Hlen. reflexivity.
  - unfold Address6.new.
    change (Js.split ":"%char ("::ffff:" ++ q))
      with (""%string :: ""%string
            :: Js.split ":"%char ("ffff" ++ String ":" q)).
    rewrite split_app_colon, (split_no_sep ":"%char q Hcolon).
    change (Js.split ":"%char "ffff" ++ [q]) with ["ffff"%string; q].
    change (len [""%string; ""%string; "ffff"%string; q]) with 4.
    cbn [parseLoop]. unfold parseItem at 1. cbn [String.eqb shortenedIndex bind octets].
    unfold parseItem at 1.
    cbn [String.eqb shortenedIndex bind octets Z.eqb Z.add Pos.add Pos.succ Pos.eqb andb].
    change (parseItem 4 (mkLoop (Some 0) []) 2 "ffff")
      with (Ok (mkLoop (Some 0) [255; 255])).
    cbn [bind].
    rewrite (parseItem_ipv4_last 4 _ 3 q a4 eq_refl Hq).
    cbn [bind shortenedIndex octets app].
    assert (Hval' : isValidByteArray (255 :: 255 :: Address.getOctets a4) = true).
    { cbn [isValidByteArray forallb isValidByte]. exact Hval. }
    rewrite finish_with_leading_elision
      by (cbn [List.length]; rewrite ?Hlen; (lia || exact Hval')).
    cbn [List.length]. rewrite Hlen. reflexivity.
Qed.

Lemma address6_embeds_any_ipv4_witness :
  octetsOf (Address6.new (InString "::10.1.2.3"))
  = Ok (repeat 0 12 ++ [10; 1; 2; 3])
  /\ octetsOf (Address6.new (InString "::ffff:10.1.2.3"))
     = Ok (repeat 0 10 ++ [255; 255] ++ [10; 1; 2; 3]).
Proof.
  apply (address6_embeds_any_ipv4 "10.1.2.3"
           (Address.mk (mkByteContainer [10; 1; 2; 3]))).
  reflexivity.
Defined.

End Address6Parser.

Section Address6Rejects.

Import Address6.

Lemma lower_digit (c : ascii) :
  Js.isDigitIn 16 (Js.lowerChar c) = Js.isDigitIn 16 c.
Proof. destruct c as [[] [] [] [] [] [] [] []]; reflexivity. Qed.

Lemma allDigits_lower (s : string) :
  allDigits 16 (Js.toLowerCase s) = allDigits 16 s.
Proof.
  induction s as [|c s IH]; [reflexivity|].
  cbn [Js.toLowerCase allDigits]. rewrite lower_digit, IH. reflexivity.
Qed.

Lemma allDigits_append (radix : Z) (x y : string) :
  allDigits radix (x ++ y) = allDigits radix x && allDigits radix y.
Proof.
  induction x as [|c x IH]; cbn [append allDigits]; [reflexivity|].
  rewrite IH, andb_assoc. reflexivity.
Qed.

Lemma slice_append (n : nat) (s : string) :
  (Js.sliceTo n s ++ Js.sliceFrom n s)%string = s.
Proof.
  revert s. induction n as [|n IH]; intros s; [reflexivity|].
  destruct s as [|c s]; [reflexivity|].
  cbn [Js.sliceTo Js.sliceFrom append]. rewrite IH. reflexivity.
Qed.

Lemma allDigits_zeros (n : nat) : allDigits 16 (Js.repeatChar "0" n) = true.
Proof. induction n as [|n IH]; [reflexivity|exact IH]. Qed.

Lemma isHexadecimalString_allDigits (s : string) :
  isHexadecimalString s = true -> allDigits 16 s = true.
Proof. destruct s; [discriminate|]. intros H. exact H. Qed.

(** A part with no dot that has more than four characters, or a
    character that is no hexadecimal digit, is rejected wherever it
    stands. *)
Lemma parseItem_bad_group (n : Z) (st : loopState) (index : Z) (item : string) :
  item <> ""%string -> Js.includes "."%char item = false ->
  4 < strlen item \/ allDigits 16 item = false ->
  parseItem n st index item = Throw AddressValueError.
Proof.
  intros Hne Hdot Hbad. unfold parseItem.
  rewrite (proj2 (String.eqb_neq item "") Hne), Hdot.
  unfold IPV6_SEGMENT_LENGTH.
  destruct (strlen item >? 4) eqn:Hgt; [reflexivity|].
  rewrite Z.gtb_ltb in Hgt. apply Z.ltb_ge in Hgt.
  destruct Hbad as [Hlong|Hdig]; [lia|].
  set (item' := if strlen item <? 4
                then (Js.repeatChar "0" (Z.to_nat (4 - strlen item)) ++ item)%string
                else item).
  assert (Hdig' : allDigits 16 item' = false).
  { subst item'. destruct (strlen item <? 4); [|exact Hdig].
    rewrite allDigits_append, allDigits_zeros, Hdig. reflexivity. }
  change (Z.to_nat (4 / 2)) with 2%nat.
  destruct (isHexadecimalString (Js.toLowerCase (Js.sliceTo 2 item'))) eqn:H1;
    cbn [negb]; [|reflexivity].
  destruct (isHexadecimalString (Js.toLowerCase (Js.sliceFrom 2 item'))) eqn:H2;
    cbn [negb]; [|reflexivity].
  exfalso.
  apply isHexadecimalString_allDigits in H1, H2.
  rewrite allDigits_lower in H1, H2.
  rewrite <- (slice_append 2 item'), allDigits_append, H1, H2 in Hdig'.
  discriminate Hdig'.
Qed.

Lemma parseItem_misplaced_ipv4 (n : Z) (st : loopState) (index : Z)
    (item : string) :
  Js.includes "."%char item = true -> index <> n - 1 ->
  parseItem n st index item = Throw AddressValueError.
Proof.
  intros Hdot Hidx. unfold parseItem.
  assert (Hne : item <> ""%string) by (intros ->; discriminate Hdot).
  rewrite (proj2 (String.eqb_neq item "") Hne), Hdot.
  rewrite (proj2 (Z.eqb_neq index (n - 1)) Hidx). reflexivity.
Qed.

Lemma parseLoop_throws (n : Z) (before : list string) (bad : string)
    (rest : list string) (index : Z) (st : loopState) :
  isValidByteArray (octets st) = true ->
  (forall st', parseItem n st' (index + len before) bad
               = Throw AddressValueError) ->
  parseLoop n (before ++ bad :: rest) index st = Throw AddressValueError.
Proof.
  intros Hval Hbad. rewrite parseLoop_app.
  pose proof (parseLoop_spec n before index st Hval) as Hb.
  destruct (parseLoop n before index st) as [st'|e]; cbn [bind].
  - cbn [parseLoop]. rewrite Hbad. reflexivity.
  - rewrite Hb. reflexivity.
Qed.

(** X10. The [Address6] constructor raises [AddressValueError] for every
    string that has, among its parts between colons, a dotted part that is
    not the last one, or a non-empty part without dot that is longer than
    four characters or holds a character that is no hexadecimal digit. *)
Theorem address6_rejects_bad_parts (s : string) (before : list string)
    (bad : string) (rest : list string) :
  Js.split ":"%char s = before ++ bad :: rest ->
  (Js.includes "."%char bad = true /\ rest <> [])
  \/ (bad <> ""%string /\ Js.includes "."%char bad = false
      /\ (4 < strlen bad \/ allDigits 16 bad = false)) ->
  Address6.new (InString s) = Throw AddressValueError.
Proof.
  intros Hsplit Hbad. unfold Address6.new. rewrite Hsplit.
  rewrite parseLoop_throws; [reflexivity|reflexivity|].
  intros st'. destruct Hbad as [[Hdot Hrest]|(Hne & Hdot & Hbad)].
  - apply parseItem_misplaced_ipv4; [exact Hdot|].
    unfold len. rewrite length_app. cbn [List.length].
    destruct rest; [congruence|]. cbn [List.length]. lia.
  - apply parseItem_bad_group; assumption.
Qed.

Lemma address6_rejects_bad_parts_witness :
  Address6.new (InString "1.2.3.4::1") = Throw AddressValueError
  /\ Address6.new (InString "1:2:3:4:5:6:7:12345") = Throw AddressValueError
  /\ Address6.new (InString "1::g") = Throw AddressValueError.
Proof.
  split; [|split].
  - apply (address6_rejects_bad_parts "1.2.3.4::1" [] "1.2.3.4" [""; "1"]%string);
      [reflexivity|]. left. split; [reflexivity|discriminate].
  - apply (address6_rejects_bad_parts "1:2:3:4:5:6:7:12345"
             ["1"; "2"; "3"; "4"; "5"; "6"; "7"]%string "12345" []);
      [reflexivity|]. right. repeat split; try discriminate.
    left. reflexivity.
  - apply (address6_rejects_bad_parts "1::g" ["1"; ""]%string "g" []);
      [reflexivity|]. right. repeat split; try discriminate.
    right. reflexivity.
Defined.

(** *** The outcomes of the [Address6] constructor on a string *)



End Address6Rejects.

(** *** The IPv6 parser and the case of the letters *)

Section CaseOfLetters.

Import Address6.

Lemma lower_colon (c : ascii) :
  Ascii.eqb (Js.lowerChar c) ":"%char = Ascii.eqb c ":"%char.
Proof. destruct c as [[] [] [] [] [] [] [] []]; reflexivity. Qed.

Lemma lower_dot (c : ascii) :
  Ascii.eqb (Js.lowerChar c) "."%char = Ascii.eqb c "."%char.
Proof. destruct c as [[] [] [] [] [] [] [] []]; reflexivity. Qed.

Lemma lower_digitValue (c : ascii) :
  Js.digitValue (Js.lowerChar c) = Js.digitValue c.
Proof. destruct c as [[] [] [] [] [] [] [] []]; reflexivity. Qed.

Lemma lower_lower (c : ascii) : Js.lowerChar (Js.lowerChar c) = Js.lowerChar c.
Proof. destruct c as [[] [] [] [] [] [] [] []]; reflexivity. Qed.

Lemma split_lower (sep : ascii) (s : string) :
  (forall c, Ascii.eqb (Js.lowerChar c) sep = Ascii.eqb c sep) ->
  Js.split sep (Js.toLowerCase s) = map Js.toLowerCase (Js.split sep s).
Proof.
  intros Hsep. induction s as [|c s IH]; [reflexivity|].
  cbn [Js.toLowerCase Js.split]. rewrite Hsep, IH.
  destruct (Ascii.eqb c sep); [reflexivity|].
  destruct (Js.split sep s); reflexivity.
Qed.

Lemma includes_lower (sep : ascii) (s : string) :
  (forall c, Ascii.eqb (Js.lowerChar c) sep = Ascii.eqb c sep) ->
  Js.includes sep (Js.toLowerCase s) = Js.includes sep s.
Proof.
  intros Hsep. induction s as [|c s IH]; [reflexivity|].
  cbn [Js.toLowerCase Js.includes]. rewrite Hsep, IH. reflexivity.
Qed.

Lemma parseDigits_lower (radix : Z) (s : string) : forall acc,
  Js.parseDigits radix acc (Js.toLowerCase s) = Js.parseDigits radix acc s.
Proof.
  induction s as [|c s IH]; intros acc; [reflexivity|].
  cbn [Js.toLowerCase Js.parseDigits]. rewrite lower_digitValue.
  destruct (Js.digitValue c) as [d|]; [|reflexivity].
  destruct (d <? radix); [apply IH|reflexivity].
Qed.

Lemma parseInt_lower (radix : Z) (s : string) :
  Js.parseInt (Js.toLowerCase s) radix = Js.parseInt s radix.
Proof.
  destruct s as [|c s]; [reflexivity|].
  unfold Js.parseInt. cbn [Js.toLowerCase].
  unfold Js.isDigitIn. rewrite lower_digitValue.
  change (String (Js.lowerChar c) (Js.toLowerCase s))
    with (Js.toLowerCase (String c s)).
  rewrite parseDigits_lower. reflexivity.
Qed.

Lemma allDigits_lower_any (radix : Z) (s : string) :
  allDigits radix (Js.toLowerCase s) = allDigits radix s.
Proof.
  induction s as [|c s IH]; [reflexivity|].
  cbn [Js.toLowerCase allDigits]. unfold Js.isDigitIn.
  rewrite lower_digitValue, IH. reflexivity.
Qed.

Lemma isDecimalString_lower (s : string) :
  isDecimalString (Js.toLowerCase s) = isDecimalString s.
Proof.
  destruct s as [|c s]; [reflexivity|].
  exact (allDigits_lower_any 10 (String c s)).
Qed.

Lemma isHexadecimalString_lower (s : string) :
  isHexadecimalString (Js.toLowerCase s) = isHexadecimalString s.
Proof.
  destruct s as [|c s]; [reflexivity|].
  exact (allDigits_lower_any 16 (String c s)).
Qed.

Lemma parseOctet_lower (p : string) :
  Address4.parseOctet (Js.toLowerCase p) = Address4.parseOctet p.
Proof.
  unfold Address4.parseOctet.
  rewrite isDecimalString_lower, parseInt_lower. reflexivity.
Qed.

Lemma mapM_lower {B : Type} (f : string -> result B) (l : list string) :
  (forall p, f (Js.toLowerCase p) = f p) ->
  mapM f (map Js.toLowerCase l) = mapM f l.
Proof.
  intros Hf. induction l as [|p l IH]; [reflexivity|].
  cbn [map mapM]. rewrite Hf, IH. reflexivity.
Qed.

Lemma address4_lower (s : string) :
  Address4.new (InString (Js.toLowerCase s)) = Address4.new (InString s).
Proof.
  unfold Address4.new. rewrite (split_lower "."%char s lower_dot).
  unfold len. rewrite length_map.
  rewrite (mapM_lower _ _ parseOctet_lower). reflexivity.
Qed.

Lemma toLowerCase_idempotent (s : string) :
  Js.toLowerCase (Js.toLowerCase s) = Js.toLowerCase s.
Proof.
  induction s as [|c s IH]; [reflexivity|].
  cbn [Js.toLowerCase]. rewrite lower_lower, IH. reflexivity.
Qed.

Lemma toLowerCase_append (x y : string) :
  Js.toLowerCase (x ++ y) = (Js.toLowerCase x ++ Js.toLowerCase y)%string.
Proof.
  induction x as [|c x IH]; [reflexivity|].
  cbn [append Js.toLowerCase]. rewrite IH. reflexivity.
Qed.

Lemma toLowerCase_zeros (n : nat) :
  Js.toLowerCase (Js.repeatChar "0" n) = Js.repeatChar "0" n.
Proof.
  induction n as [|n IH]; [reflexivity|].
  cbn [Js.repeatChar Js.toLowerCase]. rewrite IH. reflexivity.
Qed.

Lemma sliceTo_lower (n : nat) : forall s,
  Js.sliceTo n (Js.toLowerCase s) = Js.toLowerCase (Js.sliceTo n s).
Proof.
  induction n as [|n IH]; intros s; [reflexivity|].
  destruct s as [|c s]; [reflexivity|].
  cbn [Js.toLowerCase Js.sliceTo]. rewrite IH. reflexivity.
Qed.

Lemma sliceFrom_lower (n : nat) : forall s,
  Js.sliceFrom n (Js.toLowerCase s) = Js.toLowerCase (Js.sliceFrom n s).
Proof.
  induction n as [|n IH]; intros s; [reflexivity|].
  destruct s as [|c s]; [reflexivity|].
  cbn [Js.toLowerCase Js.sliceFrom]. apply IH.
Qed.

Lemma eqb_empty_lower (s : string) :
  String.eqb (Js.toLowerCase s) "" = String.eqb s "".
Proof. destruct s; reflexivity. Qed.

Lemma parseItem_lower (n : Z) (st : loopState) (index : Z) (item : string) :
  parseItem n st index (Js.toLowerCase item) = parseItem n st index item.
Proof.
  unfold parseItem.
  rewrite eqb_empty_lower, (includes_lower "."%char item lower_dot).
  rewrite address4_lower.
  unfold strlen. rewrite toLowerCase_length.
  assert (Hpad :
    (if Z.of_nat (String.length item) <? IPV6_SEGMENT_LENGTH
     then (Js.repeatChar "0"
             (Z.to_nat (IPV6_SEGMENT_LENGTH - Z.of_nat (String.length item)))
           ++ Js.toLowerCase item)%string
     else Js.toLowerCase item)
    = Js.toLowerCase
        (if Z.of_nat (String.length item) <? IPV6_SEGMENT_LENGTH
         then (Js.repeatChar "0"
                 (Z.to_nat (IPV6_SEGMENT_LENGTH - Z.of_nat (String.length item)))
               ++ item)%string
         else item)).
  { destruct (_ <? IPV6_SEGMENT_LENGTH); [|reflexivity].
    rewrite toLowerCase_append, toLowerCase_zeros. reflexivity. }
  rewrite Hpad, sliceTo_lower, sliceFrom_lower, !toLowerCase_idempotent.
  reflexivity.
Qed.

Lemma parseLoop_lower (n : Z) (items : list string) :
  forall (index : Z) (st : loopState),
    parseLoop n (map Js.toLowerCase items) index st = parseLoop n items index st.
Proof.
  induction items as [|item rest IH]; intros index st; [reflexivity|].
  cbn [map parseLoop]. rewrite parseItem_lower.
  destruct (parseItem n st index item); cbn [bind]; [apply IH|reflexivity].
Qed.

Lemma address6_lower (s : string) :
  Address6.new (InString (Js.toLowerCase s)) = Address6.new (InString s).
Proof.
  unfold Address6.new. rewrite (split_lower ":"%char s lower_colon).
  unfold len. rewrite length_map, parseLoop_lower. reflexivity.
Qed.

(** X12. The [Address6] constructor ignores the case of letters: two strings
    with the same lower-case form give the same result, address or error. *)
Theorem address6_parsing_ignores_case (s t : string) :
  Js.toLowerCase s = Js.toLowerCase t ->
  Address6.new (InString s) = Address6.new (InString t).
Proof.
  intros H. rewrite <- (address6_lower s), <- (address6_lower t), H.
  reflexivity.
Qed.

Lemma address6_parsing_ignores_case_witness :
  Address6.new (InString "2001:DB8::FF00:42:8329")
  = Address6.new (InString "2001:db8::ff00:42:8329").
Proof.
  apply address6_parsing_ignores_case. reflexivity.
Defined.

End CaseOfLetters.

